(** * Set-associative cache simulator: shallow embedding of [cache_sim.py]

    Python integers are unbounded, so they are embedded as [Z]:
    [//] is [Z.div] and [%] is [Z.modulo] (both round towards minus
    infinity, as in Python), [>>] is [Z.shiftr] and [&] is [Z.land]
    (both agree with Python on negative numbers, which are read in
    two's complement with infinitely many sign bits).

    Python floats are IEEE 754 binary64 numbers: they are embedded as
    [spec_float] with a precision of 53 bits, and the operations round
    to nearest, ties to even.

    Exceptions are made explicit: every operation that can raise
    returns a [result].  The text printed on standard output is kept as
    a list of [event]s; the wall-clock timestamps that prefix some of
    the lines are left out.

    Text is ASCII: [str.upper], [str.strip] and [int] are embedded on
    strings whose characters are all below 128, and the statements
    about them say so where it matters. *)

From Stdlib Require Import ZArith QArith Qpower SpecFloat String Ascii Bool Lia.
From stdpp Require Import base list.

Local Open Scope string_scope.
Local Open Scope list_scope.
Local Open Scope Z_scope.

(** ** Exceptions *)

Inductive exn : Type :=
| ZeroDivisionError
| ValueError (msg : string)
| IndexError.

Inductive result (A : Type) : Type :=
| Ok (a : A)
| Raise (e : exn).

Arguments Ok {A} a.
Arguments Raise {A} e.

Definition bind {A B : Type} (c : result A) (k : A -> result B) : result B :=
  match c with
  | Ok a => k a
  | Raise e => Raise e
  end.

Notation "'let*' x ':=' c 'in' k" := (bind c (fun x => k))
  (at level 10, x pattern, c at level 100, k at level 200).

(** ** Python primitives used by the simulator *)

(** [a // b] *)
Definition floordiv (a b : Z) : result Z :=
  if b =? 0 then Raise ZeroDivisionError else Ok (a / b).

(** [a % b] *)
Definition floormod (a b : Z) : result Z :=
  if b =? 0 then Raise ZeroDivisionError else Ok (a mod b).

(** [int.bit_length()] *)
Definition bit_length (n : Z) : Z :=
  if n =? 0 then 0 else Z.log2 (Z.abs n) + 1.

(** [range(n)] *)
Definition range (n : Z) : list Z :=
  (fun k : nat => Z.of_nat k) <$> seq 0 (Z.to_nat n).

(** Position denoted by the index [i] in a list of length [n]: negative
    indices count from the end, anything else out of range raises. *)
Definition position (n : nat) (i : Z) : result nat :=
  if (0 <=? i) && (i <? Z.of_nat n) then Ok (Z.to_nat i)
  else if (i <? 0) && (- Z.of_nat n <=? i) then Ok (Z.to_nat (Z.of_nat n + i))
  else Raise IndexError.

(** [l[i]] *)
Definition getitem {A : Type} (l : list A) (i : Z) : result A :=
  let* p := position (length l) i in
  match l !! p with
  | Some x => Ok x
  | None => Raise IndexError
  end.

(** [l[i] = x] *)
Definition setitem {A : Type} (l : list A) (i : Z) (x : A) : result (list A) :=
  let* p := position (length l) i in
  Ok (<[p := x]> l).

(** [str.upper()] on ASCII strings: the letters a-z are mapped to A-Z
    and every other character is kept.  (On other strings Python also
    maps non-ASCII letters, some of them to ASCII ones; see
    [is_ascii].) *)
Definition upper_ascii (c : ascii) : ascii :=
  let n := nat_of_ascii c in
  if (Nat.leb 97 n && Nat.leb n 122)%bool then ascii_of_nat (n - 32) else c.

Fixpoint upper (s : string) : string :=
  match s with
  | EmptyString => EmptyString
  | String c s' => String (upper_ascii c) (upper s')
  end.

(** [str.isascii()]: every character is below 128. *)
Fixpoint is_ascii (s : string) : bool :=
  match s with
  | EmptyString => true
  | String c s' => Nat.ltb (nat_of_ascii c) 128 && is_ascii s'
  end.

(** ** Python numbers

    A [float] is a binary64 number.  [a / b] on two integers is the
    quotient of the exact values rounded once, whatever the size of the
    integers; [x * n] with a float [x] and an integer [n] converts [n]
    and multiplies, rounding once more. *)

Definition prec : Z := 53.
Definition emax : Z := 1024.

Inductive number : Type :=
| PyInt (n : Z)
| PyFloat (x : spec_float).

(** An integer as an unrounded mantissa with exponent 0. *)
Definition exact_int (n : Z) : spec_float :=
  match n with
  | Z0 => S754_zero false
  | Zpos p => S754_finite false p 0
  | Zneg p => S754_finite true p 0
  end.

(** [a / b] on integers.  Python raises when [b] is 0 and when the
    quotient is beyond the range of the floats; the simulator divides
    by a total that it has tested to be positive, and a counter never
    exceeds the total, so neither happens there.  (Here the first case
    gives an infinity or NaN, the second an infinity.) *)
Definition truediv (a b : Z) : spec_float :=
  SFdiv prec emax (exact_int a) (exact_int b).

(** [float(n)] *)
Definition float_of_int (n : Z) : spec_float :=
  binary_normalize prec emax n 0 false.

(** [x * y] on floats *)
Definition float_mul (x y : spec_float) : spec_float :=
  SFmul prec emax x y.

(** [min(xs, key=key)]: the first element whose key is smallest. *)
Fixpoint min_by_key (key : Z -> result Z) (best best_key : Z) (rest : list Z)
  : result Z :=
  match rest with
  | [] => Ok best
  | w :: rest' =>
      let* k := key w in
      if k <? best_key then min_by_key key w k rest'
      else min_by_key key best best_key rest'
  end.

Definition py_min (xs : list Z) (key : Z -> result Z) : result Z :=
  match xs with
  | [] => Raise (ValueError "min() arg is an empty sequence")
  | x :: rest => let* k := key x in min_by_key key x k rest
  end.

(** [for x in xs: body], threading the state through the iterations. *)
Fixpoint for_each {S A : Type} (xs : list A) (body : S -> A -> result S) (s : S)
  : result S :=
  match xs with
  | [] => Ok s
  | x :: xs' => let* s' := body s x in for_each xs' body s'
  end.

(** ** Data model *)

Definition DEFAULT_CACHE_SIZE : Z := 1024.
Definition DEFAULT_BLOCK_SIZE : Z := 16.
Definition DEFAULT_ASSOCIATIVITY : Z := 2.

Record CacheLine : Type := mkCacheLine {
  valid : bool;
  tag : Z;
  last_used : Z
}.

(** [CacheLine()] *)
Definition new_CacheLine : CacheLine :=
  {| valid := false; tag := 0; last_used := 0 |}.

Record CacheStats : Type := mkCacheStats {
  total_accesses : Z;
  hits : Z;
  misses : Z;
  evictions : Z;
  hit_rate_history : list number
}.

(** [CacheStats()] *)
Definition new_CacheStats : CacheStats :=
  {| total_accesses := 0; hits := 0; misses := 0; evictions := 0;
     hit_rate_history := [] |}.

(** [(part / total) * 100 if total > 0 else 0] *)
Definition rate (part total : Z) : number :=
  if 0 <? total then PyFloat (float_mul (truediv part total) (float_of_int 100))
  else PyInt 0.

Definition record_access (self : CacheStats) (is_hit : bool) : CacheStats :=
  let total := total_accesses self + 1 in
  let hits' := if is_hit then hits self + 1 else hits self in
  let misses' := if is_hit then misses self else misses self + 1 in
  let hit_rate := rate hits' total in
  {| total_accesses := total; hits := hits'; misses := misses';
     evictions := evictions self;
     hit_rate_history := hit_rate_history self ++ [hit_rate] |}.

Definition record_eviction (self : CacheStats) : CacheStats :=
  {| total_accesses := total_accesses self; hits := hits self;
     misses := misses self; evictions := evictions self + 1;
     hit_rate_history := hit_rate_history self |}.

Record CacheSimulator : Type := mkCacheSimulator {
  cache_size : Z;
  block_size : Z;
  associativity : Z;
  replacement_policy : string;
  num_blocks : Z;
  num_sets : Z;
  access_counter : Z;
  cache_array : list (list CacheLine);
  fifo_idx : list Z;
  stats : CacheStats
}.

Definition with_access_counter (self : CacheSimulator) (c : Z) : CacheSimulator :=
  {| cache_size := cache_size self; block_size := block_size self;
     associativity := associativity self;
     replacement_policy := replacement_policy self;
     num_blocks := num_blocks self; num_sets := num_sets self;
     access_counter := c;
     cache_array := cache_array self; fifo_idx := fifo_idx self;
     stats := stats self |}.

Definition with_cache_array (self : CacheSimulator) (a : list (list CacheLine))
  : CacheSimulator :=
  {| cache_size := cache_size self; block_size := block_size self;
     associativity := associativity self;
     replacement_policy := replacement_policy self;
     num_blocks := num_blocks self; num_sets := num_sets self;
     access_counter := access_counter self;
     cache_array := a; fifo_idx := fifo_idx self;
     stats := stats self |}.

Definition with_fifo_idx (self : CacheSimulator) (f : list Z) : CacheSimulator :=
  {| cache_size := cache_size self; block_size := block_size self;
     associativity := associativity self;
     replacement_policy := replacement_policy self;
     num_blocks := num_blocks self; num_sets := num_sets self;
     access_counter := access_counter self;
     cache_array := cache_array self; fifo_idx := f;
     stats := stats self |}.

Definition with_stats (self : CacheSimulator) (st : CacheStats) : CacheSimulator :=
  {| cache_size := cache_size self; block_size := block_size self;
     associativity := associativity self;
     replacement_policy := replacement_policy self;
     num_blocks := num_blocks self; num_sets := num_sets self;
     access_counter := access_counter self;
     cache_array := cache_array self; fifo_idx := fifo_idx self;
     stats := st |}.

(** Lines printed by the simulator. *)
Inductive event : Type :=
| LogInit (sets ways : Z) (policy : string)
| LogHit (address set_index way : Z)
| LogEvict (way set_index : Z)
| LogMiss (address set_index way : Z)
| LogSetState (set_index : Z) (lines : list CacheLine).

(** ** [CacheSimulator.__init__] *)

Definition __init__ (cache_size block_size associativity : Z)
    (replacement_policy : string) : result CacheSimulator :=
  let replacement_policy := upper replacement_policy in
  let* num_blocks := floordiv cache_size block_size in
  let* num_sets := floordiv num_blocks associativity in
  if (cache_size <=? 0) || (block_size <=? 0) || (associativity <=? 0) then
    Raise (ValueError
      "Cache size, block size, and associativity must be positive integers.")
  else if negb (num_blocks * block_size =? cache_size) then
    Raise (ValueError "Cache size must be divisible by block size.")
  else if negb (num_sets * associativity =? num_blocks) then
    Raise (ValueError "Number of blocks must be divisible by associativity.")
  else if negb (String.eqb replacement_policy "FIFO"
                || String.eqb replacement_policy "LRU") then
    Raise (ValueError "Replacement policy must be 'FIFO' or 'LRU'.")
  else
    Ok {| cache_size := cache_size; block_size := block_size;
          associativity := associativity;
          replacement_policy := replacement_policy;
          num_blocks := num_blocks; num_sets := num_sets;
          access_counter := 0;
          cache_array :=
            replicate (Z.to_nat num_sets)
              (replicate (Z.to_nat associativity) new_CacheLine);
          fifo_idx := replicate (Z.to_nat num_sets) 0;
          stats := new_CacheStats |}.

(** ** [CacheSimulator.init_cache] *)

(** [self.cache_array[set_idx][way].<field> = ...]: the line objects are
    all distinct (each is created by its own [CacheLine()] call), so an
    assignment to a field changes exactly one position of the array. *)
Definition modify_line (self : CacheSimulator) (set_idx way : Z)
    (f : CacheLine -> CacheLine) : result CacheSimulator :=
  let* row := getitem (cache_array self) set_idx in
  let* line := getitem row way in
  let* row' := setitem row way (f line) in
  let* arr' := setitem (cache_array self) set_idx row' in
  Ok (with_cache_array self arr').

Definition set_valid (b : bool) (l : CacheLine) : CacheLine :=
  {| valid := b; tag := tag l; last_used := last_used l |}.
Definition set_tag (t : Z) (l : CacheLine) : CacheLine :=
  {| valid := valid l; tag := t; last_used := last_used l |}.
Definition set_last_used (u : Z) (l : CacheLine) : CacheLine :=
  {| valid := valid l; tag := tag l; last_used := u |}.

Definition init_line (set_idx : Z) (self : CacheSimulator) (way : Z)
  : result CacheSimulator :=
  let* self := modify_line self set_idx way (set_valid false) in
  let* self := modify_line self set_idx way (set_tag 0) in
  modify_line self set_idx way (set_last_used 0).

Definition init_set (self : CacheSimulator) (set_idx : Z)
  : result CacheSimulator :=
  let* self := for_each (range (associativity self)) (init_line set_idx) self in
  let* f := setitem (fifo_idx self) set_idx 0 in
  Ok (with_fifo_idx self f).

Definition init_cache (self : CacheSimulator)
  : result (list event * CacheSimulator) :=
  let* self := for_each (range (num_sets self)) init_set self in
  Ok ([LogInit (num_sets self) (associativity self) (replacement_policy self)],
      self).

(** ** [CacheSimulator._print_set_state] *)

Fixpoint collect_lines (arr : list (list CacheLine)) (set_index : Z)
    (ways : list Z) : result (list CacheLine) :=
  match ways with
  | [] => Ok []
  | way :: ways' =>
      let* row := getitem arr set_index in
      let* line := getitem row way in
      let* rest := collect_lines arr set_index ways' in
      Ok (line :: rest)
  end.

Definition _print_set_state (self : CacheSimulator) (set_index : Z)
  : result (list event) :=
  let* lines :=
    collect_lines (cache_array self) set_index (range (associativity self)) in
  Ok [LogSetState set_index lines].

(** ** [CacheSimulator.access_cache] *)

(** The set index and the tag of an address (the two assignments that
    open [access_cache]).  The shift count [4 + (bit_length - 1)] is at
    least 3, so the shift never raises. *)
Definition set_index_of (self : CacheSimulator) (address : Z) : Z :=
  Z.land (Z.shiftr address 4) (num_sets self - 1).

Definition tag_value_of (self : CacheSimulator) (address : Z) : Z :=
  Z.shiftr address (4 + (bit_length (num_sets self) - 1)).

(** The hit loop: the first way holding a valid line with the tag. *)
Fixpoint find_hit (current_set : list CacheLine) (tag_value : Z)
    (ways : list Z) : result (option Z) :=
  match ways with
  | [] => Ok None
  | way :: ways' =>
      let* line := getitem current_set way in
      if valid line && (tag line =? tag_value) then Ok (Some way)
      else find_hit current_set tag_value ways'
  end.

(** The way to replace, with the FIFO cursors after the choice. *)
Definition choose_victim (self : CacheSimulator) (set_index : Z)
    (current_set : list CacheLine) : result (Z * list Z) :=
  if String.eqb (replacement_policy self) "FIFO" then
    let* replace_idx := getitem (fifo_idx self) set_index in
    let* cursor := getitem (fifo_idx self) set_index in
    let* next := floormod (cursor + 1) (associativity self) in
    let* f := setitem (fifo_idx self) set_index next in
    Ok (replace_idx, f)
  else
    let* replace_idx :=
      py_min (range (associativity self))
        (fun w => let* line := getitem current_set w in Ok (last_used line)) in
    Ok (replace_idx, fifo_idx self).

Definition access_cache (self : CacheSimulator) (address : Z)
  : result (bool * list event * CacheSimulator) :=
  let self := with_access_counter self (access_counter self + 1) in
  let set_index := set_index_of self address in
  let tag_value := tag_value_of self address in
  let* current_set := getitem (cache_array self) set_index in
  let* found := find_hit current_set tag_value (range (associativity self)) in
  match found with
  | Some way =>
      let* self :=
        modify_line self set_index way (set_last_used (access_counter self)) in
      let self := with_stats self (record_access (stats self) true) in
      let* st := _print_set_state self set_index in
      Ok (true, LogHit address set_index way :: st, self)
  | None =>
      let* (replace_idx, f) := choose_victim self set_index current_set in
      let self := with_fifo_idx self f in
      let* victim := getitem current_set replace_idx in
      let self :=
        if valid victim then with_stats self (record_eviction (stats self))
        else self in
      let ev :=
        if valid victim then [LogEvict replace_idx set_index] else [] in
      let* self := modify_line self set_index replace_idx (set_valid true) in
      let* self := modify_line self set_index replace_idx (set_tag tag_value) in
      let* self :=
        modify_line self set_index replace_idx
          (set_last_used (access_counter self)) in
      let self := with_stats self (record_access (stats self) false) in
      let* st := _print_set_state self set_index in
      Ok (false, ev ++ LogMiss address set_index replace_idx :: st, self)
  end.

(** ** The outcome of one access

    What one call of [access_cache] decides: hit or miss, the set and
    the way involved and, on a miss, the tag of the valid line that the
    fill overwrites, if any. *)
Record Outcome : Type := mkOutcome {
  hit : bool;
  set_index : Z;
  way : Z;
  evicted : option Z
}.

Definition access_outcome (self : CacheSimulator) (address : Z)
  : result Outcome :=
  let self := with_access_counter self (access_counter self + 1) in
  let set_index := set_index_of self address in
  let tag_value := tag_value_of self address in
  let* current_set := getitem (cache_array self) set_index in
  let* found := find_hit current_set tag_value (range (associativity self)) in
  match found with
  | Some way =>
      Ok {| hit := true; set_index := set_index; way := way; evicted := None |}
  | None =>
      let* (replace_idx, _) := choose_victim self set_index current_set in
      let* victim := getitem current_set replace_idx in
      Ok {| hit := false; set_index := set_index; way := replace_idx;
            evicted := if valid victim then Some (tag victim) else None |}
  end.

(** ** The driver loop of [main] *)

(** Feeds the addresses of a trace in order; returns the value
    returned by each call, the lines printed and the final state. *)
Fixpoint run (self : CacheSimulator) (trace : list Z)
  : result (list bool * list event * CacheSimulator) :=
  match trace with
  | [] => Ok ([], [], self)
  | address :: trace' =>
      let* (h, ev, self) := access_cache self address in
      let* (hs, evs, self) := run self trace' in
      Ok (h :: hs, ev ++ evs, self)
  end.

(** The outcomes of the accesses of a trace, in order. *)
Fixpoint outcomes (self : CacheSimulator) (trace : list Z)
  : result (list Outcome) :=
  match trace with
  | [] => Ok []
  | address :: trace' =>
      let* o := access_outcome self address in
      let* (_, _, self) := access_cache self address in
      let* os := outcomes self trace' in
      Ok (o :: os)
  end.

Definition default_trace : list Z :=
  [0x0000A3C4; 0x0000A3D0; 0x0000A3C4; 0x0000A3D0;
   0x0000B3C4; 0x0000C3C4; 0x0000A3C4; 0x0000D3C4].

(** [main] without a trace file: construction, [init_cache], then the
    trace. *)
Definition simulate (cache_size block_size associativity : Z)
    (policy : string) (trace : list Z)
  : result (list bool * CacheSimulator) :=
  let* simulator := __init__ cache_size block_size associativity policy in
  let* (_, simulator) := init_cache simulator in
  let* (hs, _, simulator) := run simulator trace in
  Ok (hs, simulator).

(** ** [CacheStats.print_summary] *)

(** Lines printed by [print_summary]; the two rates are kept as the
    numbers that are formatted. *)
Inductive summary_line : Type :=
| SummaryHeader
| SummaryTotal (n : Z)
| SummaryHits (n : Z)
| SummaryMisses (n : Z)
| SummaryEvictions (n : Z)
| SummaryHitRate (r : number)
| SummaryMissRate (r : number).

Definition print_summary (self : CacheStats) : list summary_line :=
  let hit_rate := rate (hits self) (total_accesses self) in
  let miss_rate := rate (misses self) (total_accesses self) in
  [SummaryHeader;
   SummaryTotal (total_accesses self);
   SummaryHits (hits self);
   SummaryMisses (misses self);
   SummaryEvictions (evictions self);
   SummaryHitRate hit_rate;
   SummaryMissRate miss_rate].

(** ** [read_trace_file]

    The file is given by its lines, as the iteration over the file
    object yields them (each with its line terminator).  Text is ASCII:
    a string is its list of characters.  (In other text Python also
    strips Unicode white space and reads Unicode decimal digits; see
    [is_ascii].)  A failure, which prints a message and ends the
    program with [sys.exit(1)], is the result [TraceExit] with the
    offending line. *)

(** [str.isspace()] on one ASCII character: tab, newline, vertical tab,
    form feed, carriage return, the four separators 0x1c-0x1f and the
    space. *)
Definition is_space (c : ascii) : bool :=
  let n := nat_of_ascii c in
  (Nat.leb 9 n && Nat.leb n 13) || (Nat.leb 28 n && Nat.leb n 32).

Fixpoint lstrip (cs : list ascii) : list ascii :=
  match cs with
  | [] => []
  | c :: cs' => if is_space c then lstrip cs' else cs
  end.

Definition rstrip (cs : list ascii) : list ascii :=
  reverse (lstrip (reverse cs)).

(** [str.strip()] *)
Definition strip (cs : list ascii) : list ascii := rstrip (lstrip cs).

(** Value of a hexadecimal digit. *)
Definition hex_value (c : ascii) : option Z :=
  let n := Z.of_nat (nat_of_ascii c) in
  if (48 <=? n) && (n <=? 57) then Some (n - 48)
  else if (97 <=? n) && (n <=? 102) then Some (n - 87)
  else if (65 <=? n) && (n <=? 70) then Some (n - 55)
  else None.

(** An optional sign. *)
Definition split_sign (cs : list ascii) : bool * list ascii :=
  match cs with
  | c :: r =>
      if Ascii.eqb c "+" then (false, r)
      else if Ascii.eqb c "-" then (true, r)
      else (false, cs)
  | [] => (false, [])
  end.

(** An optional [0x] or [0X], which one underscore may follow. *)
Definition skip_prefix (cs : list ascii) : list ascii :=
  match cs with
  | c0 :: c1 :: r =>
      if Ascii.eqb c0 "0" && (Ascii.eqb c1 "x" || Ascii.eqb c1 "X") then
        match r with
        | u :: r' => if Ascii.eqb u "_" then r' else r
        | [] => r
        end
      else cs
  | _ => cs
  end.

(** The digits, where single underscores may separate digits: no two
    underscores in a row, none at the end, at least one digit, and
    nothing else up to the end of the text. *)
Fixpoint scan_digits (cs : list ascii) (prev_underscore seen : bool) (acc : Z)
  : option Z :=
  match cs with
  | [] => if prev_underscore || negb seen then None else Some acc
  | c :: cs' =>
      if Ascii.eqb c "_" then
        if prev_underscore then None else scan_digits cs' true seen acc
      else
        match hex_value c with
        | Some d => scan_digits cs' false true (acc * 16 + d)
        | None => None
        end
  end.

(** The white space that [int] skips at both ends of an ASCII text: the
    six characters of C's [isspace], not the separators 0x1c-0x1f. *)
Definition is_c_space (c : ascii) : bool :=
  let n := nat_of_ascii c in
  (Nat.leb 9 n && Nat.leb n 13) || Nat.eqb n 32.

Fixpoint int_lstrip (cs : list ascii) : list ascii :=
  match cs with
  | [] => []
  | c :: cs' => if is_c_space c then int_lstrip cs' else cs
  end.

Definition int_strip (cs : list ascii) : list ascii :=
  reverse (int_lstrip (reverse (int_lstrip cs))).

(** [int(text, 16)]; [None] stands for the [ValueError]. *)
Definition int16 (text : list ascii) : option Z :=
  let (negative, cs) := split_sign (int_strip text) in
  let cs := skip_prefix cs in
  match cs with
  | [] => None
  | c :: _ =>
      if Ascii.eqb c "_" then None
      else
        match scan_digits cs false false 0 with
        | Some v => Some (if negative then - v else v)
        | None => None
        end
  end.

Inductive trace_result : Type :=
| TraceOk (trace : list Z)
| TraceExit (line : list ascii).

(** Empty lines and comments are skipped. *)
Definition skipped (line : list ascii) : bool :=
  match line with
  | [] => true
  | c :: _ => Ascii.eqb c "#"
  end.

Fixpoint read_lines (lines : list string) (trace : list Z) : trace_result :=
  match lines with
  | [] => TraceOk trace
  | line :: rest =>
      let line := strip (list_ascii_of_string line) in
      if skipped line then read_lines rest trace
      else
        match int16 line with
        | Some address =>
            if (address <? 0) || (0xFFFFFFFF <? address) then TraceExit line
            else read_lines rest (trace ++ [address])
        | None => TraceExit line
        end
  end.

Definition read_trace_file (lines : list string) : trace_result :=
  read_lines lines [].

(** The lines that are neither empty nor comments once stripped. *)
Definition data_lines (lines : list string) : list string :=
  List.filter
    (fun line => negb (skipped (strip (list_ascii_of_string line)))) lines.

(** The address that a line holds: it parses and fits in 32 bits. *)
Definition holds_address (line : string) (address : Z) : Prop :=
  int16 (strip (list_ascii_of_string line)) = Some address /\
  0 <= address <= 0xFFFFFFFF.

(** ** The format [08x] of the addresses in the log *)

Definition hex_digit (d : Z) : ascii :=
  ascii_of_nat (Z.to_nat (if d <? 10 then 48 + d else 87 + d)).

(** The hexadecimal digits of a non-negative number, most significant
    first; [fuel] bounds their number. *)
Fixpoint hex_digits (fuel : nat) (n : Z) : list Z :=
  match fuel with
  | O => []
  | S fuel' =>
      if n <? 16 then [n]
      else hex_digits fuel' (n / 16) ++ [n mod 16]
  end.

(** The number that a list of hexadecimal digits writes. *)
Definition digits_value (ds : list Z) : Z :=
  fold_left (fun acc d => acc * 16 + d) ds 0.

Definition to_hex (n : Z) : list Z :=
  hex_digits (S (Z.to_nat (Z.log2 n))) n.

Definition zero_pad (width : nat) (ds : list Z) : list Z :=
  replicate (width - length ds) 0 ++ ds.

(** [format(n, '08x')]: the sign, if any, counts in the width. *)
Definition format_08x (n : Z) : list ascii :=
  if n <? 0 then "-"%char :: (hex_digit <$> zero_pad 7 (to_hex (- n)))
  else hex_digit <$> zero_pad 8 (to_hex n).

(** A line of a trace file as the log writes addresses: [0x], the
    address in format [08x], a newline. *)
Definition trace_line (address : Z) : string :=
  string_of_list_ascii
    ("0"%char :: "x"%char :: format_08x address ++ ["010"%char]).

(** ** [main]

    The arguments are taken as [argparse] returns them; [trace_file] is
    the content of the trace file, by lines, when one is given.  The
    program ends by returning from [main], by [sys.exit] or by an
    exception that nothing catches.  The result keeps the values
    returned by the accesses (printed as HIT or MISS) and the summary;
    the plot written at the very end is left out. *)
Inductive main_result : Type :=
| MainFinished (results : list bool) (summary : list summary_line)
| MainExit (code : Z)
| MainUncaught (e : exn).

Definition main (cache_size block_size associativity : Z) (policy : string)
    (trace_file : option (list string)) : main_result :=
  match __init__ cache_size block_size associativity policy with
  | Raise (ValueError _) => MainExit 1
  | Raise e => MainUncaught e
  | Ok simulator =>
      match
        match trace_file with
        | Some lines => read_trace_file lines
        | None => TraceOk default_trace
        end
      with
      | TraceExit _ => MainExit 1
      | TraceOk trace =>
          match init_cache simulator with
          | Raise e => MainUncaught e
          | Ok (_, simulator) =>
              match run simulator trace with
              | Raise e => MainUncaught e
              | Ok (results, _, simulator) =>
                  MainFinished results (print_summary (stats simulator))
              end
          end
      end
  end.



(** * Vocabulary of the statements *)

(** [v] is the first index below [n] at which [kf] is smallest. *)
Definition first_min (kf : Z -> Z) (n v : Z) : Prop :=
  0 <= v < n /\
  forall w, 0 <= w < n -> kf v <= kf w /\ (w < v -> kf v < kf w).

(** The [last_used] stamp of way [w] of a row (0 outside the row). *)
Definition stamp (row : list CacheLine) (w : Z) : Z :=
  match row !! Z.to_nat w with
  | Some line => last_used line
  | None => 0
  end.

(** ** Well-formed simulator states *)

(** The dimensions of the arrays agree with the configuration. *)
Record shaped (s : CacheSimulator) : Prop := mkShaped {
  shaped_sets : 0 < num_sets s;
  shaped_ways : 0 < associativity s;
  shaped_policy :
    replacement_policy s = "FIFO" \/ replacement_policy s = "LRU";
  shaped_rows : length (cache_array s) = Z.to_nat (num_sets s);
  shaped_cols :
    Forall (fun row => length row = Z.to_nat (associativity s))
      (cache_array s);
  shaped_cursors : length (fifo_idx s) = Z.to_nat (num_sets s);
  shaped_cursor_range :
    Forall (fun c => 0 <= c < associativity s) (fifo_idx s)
}.

(** A valid line carries the number of the access that last touched
    it; an invalid line has never been touched. *)
Definition line_ok (counter : Z) (l : CacheLine) : Prop :=
  if valid l then 1 <= last_used l <= counter else last_used l = 0.

(** The rational number that a finite float denotes: its mantissa,
    with its sign, times 2 to its exponent. *)
Definition float_value (x : spec_float) : option Q :=
  match x with
  | S754_zero _ => Some 0%Q
  | S754_finite s m e => Some (inject_Z (cond_Zopp s (Z.pos m)) * 2 ^ e)%Q
  | S754_infinity _ | S754_nan => None
  end.

Definition number_value (x : number) : option Q :=
  match x with
  | PyInt n => Some (inject_Z n)
  | PyFloat x => float_value x
  end.

(** A number that lies between 0 and 100. *)
Definition in_percent (x : number) : Prop :=
  exists q : Q, number_value x = Some q /\ (0 <= q)%Q /\ (q <= 100)%Q.

(** [b] is [a] shifted right by [j] bits: the mantissa is divided by
    [2^j], and the round and sticky bits stay clear if they were and
    the bits shifted out are all 0. *)
Definition shifted (j : Z) (a b : shr_record) : Prop :=
  0 <= shr_m b /\ shr_m b = shr_m a / 2 ^ j /\
  (shr_m a mod 2 ^ j = 0 -> shr_r a = false -> shr_s a = false ->
   shr_r b = false /\ shr_s b = false).

Record stats_ok (st : CacheStats) : Prop := mkStatsOk {
  stats_hits : 0 <= hits st;
  stats_total : hits st + misses st = total_accesses st;
  stats_evictions : 0 <= evictions st <= misses st;
  stats_history : Forall in_percent (hit_rate_history st);
  stats_samples : Z.of_nat (length (hit_rate_history st)) = total_accesses st
}.

Record wf (s : CacheSimulator) : Prop := mkWf {
  wf_shaped : shaped s;
  wf_counter : 0 <= access_counter s;
  wf_lines : Forall (Forall (line_ok (access_counter s))) (cache_array s);
  wf_stats : stats_ok (stats s)
}.

(** ** One access, described without the exceptions *)

(** The line that a miss writes. *)
Definition filled (tv c : Z) : CacheLine :=
  {| valid := true; tag := tv; last_used := c |}.

(** The lines that [access_cache] prints for an outcome, before the
    state of the set. *)
Definition log_of (address : Z) (o : Outcome) : list event :=
  if hit o then [LogHit address (set_index o) (way o)]
  else match evicted o with
       | Some _ => [LogEvict (way o) (set_index o)]
       | None => []
       end ++ [LogMiss address (set_index o) (way o)].

(** The row of the selected set after the access: [line] is the line
    found (hit) or replaced (miss). *)
Definition row_after (s : CacheSimulator) (address : Z) (o : Outcome)
    (row : list CacheLine) (line : CacheLine) : list CacheLine :=
  let c := access_counter s + 1 in
  <[Z.to_nat (way o) :=
      if hit o then set_last_used c line
      else filled (tag_value_of s address) c]> row.

(** The state after the access. *)
Definition after_access (s : CacheSimulator) (address : Z) (o : Outcome)
    (row : list CacheLine) (line : CacheLine) : CacheSimulator :=
  {| cache_size := cache_size s; block_size := block_size s;
     associativity := associativity s;
     replacement_policy := replacement_policy s;
     num_blocks := num_blocks s; num_sets := num_sets s;
     access_counter := access_counter s + 1;
     cache_array :=
       <[Z.to_nat (set_index o) := row_after s address o row line]>
         (cache_array s);
     fifo_idx :=
       if hit o then fifo_idx s
       else if String.eqb (replacement_policy s) "FIFO" then
         <[Z.to_nat (set_index o) := (way o + 1) mod associativity s]>
           (fifo_idx s)
       else fifo_idx s;
     stats :=
       record_access
         (if hit o then stats s
          else if valid line then record_eviction (stats s) else stats s)
         (hit o) |}.

(** What relates an outcome [o] to the state [s] it was decided in:
    [row] is the selected set and [line] the line found or replaced. *)
Record step_facts (s : CacheSimulator) (a : Z) (o : Outcome)
    (row : list CacheLine) (line : CacheLine) : Prop := mkStepFacts {
  sf_set : set_index o = set_index_of s a;
  sf_set_range : 0 <= set_index o < num_sets s;
  sf_row : cache_array s !! Z.to_nat (set_index o) = Some row;
  sf_row_len : length row = Z.to_nat (associativity s);
  sf_way : 0 <= way o < associativity s;
  sf_line : row !! Z.to_nat (way o) = Some line;
  sf_hit :
    hit o = true ->
    valid line = true /\ tag line = tag_value_of s a /\ evicted o = None;
  sf_miss :
    hit o = false ->
    evicted o = (if valid line then Some (tag line) else None) /\
    forall w l, 0 <= w < associativity s -> row !! Z.to_nat w = Some l ->
                valid l && (tag l =? tag_value_of s a) = false;
  sf_fifo :
    hit o = false -> replacement_policy s = "FIFO" ->
    fifo_idx s !! Z.to_nat (set_index o) = Some (way o);
  sf_lru :
    hit o = false -> replacement_policy s = "LRU" ->
    first_min (stamp row) (associativity s) (way o)
}.

(** ** The state after [init_cache] *)

(** [l] with the [m] positions from [k] on holding [x]. *)
Definition overwrite {A : Type} (k m : nat) (x : A) (l : list A) : list A :=
  take k l ++ replicate m x ++ drop (k + m) l.

Arguments overwrite : simpl never.

Definition reset_state (s : CacheSimulator) : CacheSimulator :=
  {| cache_size := cache_size s; block_size := block_size s;
     associativity := associativity s;
     replacement_policy := replacement_policy s;
     num_blocks := num_blocks s; num_sets := num_sets s;
     access_counter := access_counter s;
     cache_array :=
       replicate (Z.to_nat (num_sets s))
         (replicate (Z.to_nat (associativity s)) new_CacheLine);
     fifo_idx := replicate (Z.to_nat (num_sets s)) 0;
     stats := stats s |}.

(** ** Histories of a cache *)

(** The operations a driver can apply to a constructed cache. *)
Inductive op : Type :=
| Access (address : Z)
| Reinit.

Definition exec_op (s : CacheSimulator) (o : op) : result CacheSimulator :=
  match o with
  | Access address =>
      let* (_, s') := access_cache s address in Ok s'
  | Reinit =>
      let* (_, s') := init_cache s in Ok s'
  end.

Definition exec (s : CacheSimulator) (ops : list op) : result CacheSimulator :=
  for_each ops exec_op s.

(** The configuration, which no operation changes. *)
Definition same_config (s s' : CacheSimulator) : Prop :=
  cache_size s' = cache_size s /\ block_size s' = block_size s /\
  associativity s' = associativity s /\
  replacement_policy s' = replacement_policy s /\
  num_blocks s' = num_blocks s /\ num_sets s' = num_sets s.

(** ** The address decomposition as the specification words it *)

Definition spec_set_index (s : CacheSimulator) (address : Z) : Z :=
  Z.land (Z.shiftr address (Z.log2 (block_size s))) (num_sets s - 1).

Definition spec_tag (s : CacheSimulator) (address : Z) : Z :=
  Z.shiftr address (Z.log2 (block_size s) + Z.log2 (num_sets s)).

Definition power_of_two (n : Z) : Prop := exists k, 0 <= k /\ n = 2 ^ k.

(** The sizes that the constructor accepts: all positive, the block
    size divides the cache size and the associativity divides the
    number of blocks. *)
Definition valid_config (cs bs ways : Z) : Prop :=
  0 < cs /\ 0 < bs /\ 0 < ways /\ cs mod bs = 0 /\ (cs / bs) mod ways = 0.

(** Number of valid lines of a set. *)
Definition valid_lines (row : list CacheLine) : nat :=
  length (List.filter valid row).

(** ** Hit-rate samples *)

(** Number of hits among the values returned by [access_cache]. *)
Fixpoint hits_among (hs : list bool) : Z :=
  match hs with
  | [] => 0
  | b :: hs' => (if b then 1 else 0) + hits_among hs'
  end.

(** The samples that a sequence of accesses appends, starting from
    [h] hits in [t] accesses. *)
Fixpoint samples (hs : list bool) (h t : Z) : list number :=
  match hs with
  | [] => []
  | b :: hs' =>
      let h' := if b then h + 1 else h in
      rate h' (t + 1) :: samples hs' h' (t + 1)
  end.

(** ** Victims of the misses on one set *)

Fixpoint victims (k : Z) (os : list Outcome) : list Z :=
  match os with
  | [] => []
  | o :: os' =>
      if negb (hit o) && (set_index o =? k) then way o :: victims k os'
      else victims k os'
  end.

(** The first [m] terms of [c, c+1, ...] modulo [n]. *)
Definition cycle_from (c n : Z) (m : nat) : list Z :=
  (fun j : nat => (c + Z.of_nat j) mod n) <$> seq 0 m.

(** ** Two caches that differ by the age of their access counter *)

(** The stamp that corresponds to [t] in a cache whose counter is [c]
    accesses ahead: untouched lines keep stamp 0. *)
Definition shift (c t : Z) : Z := if t =? 0 then 0 else t + c.

Definition line_sim (c : Z) (l1 l2 : CacheLine) : Prop :=
  valid l2 = valid l1 /\ tag l2 = tag l1 /\
  0 <= last_used l1 /\ last_used l2 = shift c (last_used l1).

Record sim (c : Z) (s1 s2 : CacheSimulator) : Prop := mkSim {
  sim_shift : 0 <= c;
  sim_config : same_config s1 s2;
  sim_counter_nonneg : 0 <= access_counter s1;
  sim_counter : access_counter s2 = access_counter s1 + c;
  sim_fifo : fifo_idx s2 = fifo_idx s1;
  sim_lines : Forall2 (Forall2 (line_sim c)) (cache_array s1) (cache_array s2)
}.

(** ** Residency *)

(** No two valid lines of a set hold the same tag. *)
Definition distinct_tags (row : list CacheLine) : Prop :=
  forall (i j : nat) (l1 l2 : CacheLine),
    row !! i = Some l1 -> row !! j = Some l2 ->
    valid l1 = true -> valid l2 = true -> tag l1 = tag l2 -> i = j.



(** Number of valid lines of the whole cache. *)
Fixpoint total_valid (arr : list (list CacheLine)) : Z :=
  match arr with
  | [] => 0
  | row :: arr' => Z.of_nat (valid_lines row) + total_valid arr'
  end.

(** * Properties *)

(** ** The primitives on indices that are in range *)

Lemma position_in_range (n : nat) (i : Z) :
  0 <= i < Z.of_nat n -> position n i = Ok (Z.to_nat i).
Proof.
  intros Hi. unfold position.
  destruct (Z.leb_spec 0 i); [|lia].
  destruct (Z.ltb_spec i (Z.of_nat n)); [|lia].
  reflexivity.
Qed.

Lemma getitem_lookup {A : Type} (l : list A) (i : Z) (x : A) :
  0 <= i -> l !! Z.to_nat i = Some x -> getitem l i = Ok x.
Proof.
  intros Hi Hx. unfold getitem.
  apply lookup_lt_Some in Hx as Hlen.
  rewrite position_in_range by lia. simpl. now rewrite Hx.
Qed.

Lemma setitem_lookup {A : Type} (l : list A) (i : Z) (x y : A) :
  0 <= i -> l !! Z.to_nat i = Some x ->
  setitem l i y = Ok (<[Z.to_nat i := y]> l).
Proof.
  intros Hi Hx. unfold setitem.
  apply lookup_lt_Some in Hx as Hlen.
  now rewrite position_in_range by lia.
Qed.

Lemma getitem_of_nat {A : Type} (l : list A) (k : nat) (x : A) :
  l !! k = Some x -> getitem l (Z.of_nat k) = Ok x.
Proof.
  intros Hx. apply getitem_lookup; [lia|]. now rewrite Nat2Z.id.
Qed.

Lemma modify_line_lookup (self : CacheSimulator) (si w : Z)
    (row : list CacheLine) (line : CacheLine) (f : CacheLine -> CacheLine) :
  0 <= si -> 0 <= w ->
  cache_array self !! Z.to_nat si = Some row ->
  row !! Z.to_nat w = Some line ->
  modify_line self si w f =
    Ok (with_cache_array self
          (<[Z.to_nat si := <[Z.to_nat w := f line]> row]> (cache_array self))).
Proof.
  intros Hsi Hw Hrow Hline. unfold modify_line.
  rewrite (getitem_lookup _ _ _ Hsi Hrow). simpl.
  rewrite (getitem_lookup _ _ _ Hw Hline). simpl.
  rewrite (setitem_lookup _ _ _ (f line) Hw Hline). simpl.
  rewrite (setitem_lookup _ _ _ (<[Z.to_nat w := f line]> row) Hsi Hrow).
  reflexivity.
Qed.

Lemma elem_of_range (n w : Z) : w ∈ range n <-> 0 <= w < n.
Proof.
  unfold range. rewrite list_elem_of_fmap. split.
  - intros (k & -> & Hk). apply elem_of_seq in Hk. lia.
  - intros Hw. exists (Z.to_nat w). split; [lia|]. apply elem_of_seq. lia.
Qed.

(** ** The set index is always a valid row number *)

Lemma land_le_mask (a m : Z) : 0 <= m -> Z.land a m <= m.
Proof.
  intros Hm.
  assert (Hd : Z.land (Z.ldiff m a) (Z.land m a) = 0).
  { rewrite (Z.land_comm m a), Z.land_assoc, Z.land_ldiff. apply Z.land_0_l. }
  pose proof (Z.add_nocarry_lxor _ _ Hd) as Hadd.
  rewrite (Z.lxor_lor _ _ Hd), Z.lor_ldiff_and in Hadd.
  assert (0 <= Z.ldiff m a) by (apply Z.ldiff_nonneg; now left).
  rewrite (Z.land_comm a m). lia.
Qed.

Lemma set_index_of_bounds (self : CacheSimulator) (address : Z) :
  0 < num_sets self ->
  0 <= set_index_of self address < num_sets self.
Proof.
  intros Hn. unfold set_index_of.
  assert (Hm : 0 <= num_sets self - 1) by lia.
  split.
  - apply Z.land_nonneg. now right.
  - pose proof (land_le_mask (Z.shiftr address 4) _ Hm). lia.
Qed.

(** ** The hit loop *)

Lemma find_hit_total (row : list CacheLine) (tv : Z) (ws : list Z) :
  Forall (fun w => 0 <= w < Z.of_nat (length row)) ws ->
  exists r, find_hit row tv ws = Ok r /\
    match r with
    | Some w =>
        w ∈ ws /\
        exists line, row !! Z.to_nat w = Some line /\
                     valid line = true /\ tag line = tv
    | None =>
        forall w line, w ∈ ws -> row !! Z.to_nat w = Some line ->
                       valid line && (tag line =? tv) = false
    end.
Proof.
  induction 1 as [|w ws Hw _ IH]; simpl.
  - exists None. split; [reflexivity|]. intros w line Hin. inversion Hin.
  - destruct (lookup_lt_is_Some_2 row (Z.to_nat w)) as [line Hline]; [lia|].
    rewrite (getitem_lookup _ _ _ (proj1 Hw) Hline). simpl.
    destruct (valid line && (tag line =? tv)) eqn:Hm.
    + exists (Some w). split; [reflexivity|]. split; [left|].
      exists line. apply andb_prop in Hm as [Hv Ht].
      apply Z.eqb_eq in Ht. auto.
    + destruct IH as (r & Hr & Hspec). exists r. split; [exact Hr|].
      destruct r as [w'|].
      * destruct Hspec as [Hin Hl]. split; [now right|exact Hl].
      * intros w' line' Hin Hl'. apply elem_of_cons in Hin as [->|Hin].
        -- congruence.
        -- eauto.
Qed.

Lemma Forall_range (n : Z) (P : Z -> Prop) :
  (forall w, 0 <= w < n -> P w) -> Forall P (range n).
Proof.
  intros H. apply Forall_forall. intros w Hw. apply H.
  now apply elem_of_range.
Qed.

(** ** [min] with a key over [range(n)] *)

Lemma first_min_unique (kf : Z -> Z) (n v v' : Z) :
  first_min kf n v -> first_min kf n v' -> v = v'.
Proof.
  intros [Hv H1] [Hv' H2].
  destruct (H1 v' Hv') as [Ha Hb]. destruct (H2 v Hv) as [Hc Hd].
  destruct (Z.lt_trichotomy v v') as [Hlt|[Heq|Hgt]]; [|exact Heq|].
  - specialize (Hd Hlt). lia.
  - specialize (Hb Hgt). lia.
Qed.

Lemma min_by_key_from (key : Z -> result Z) (kf : Z -> Z) (m : nat) :
  forall (k : nat) (best : Z),
    (forall w, Z.of_nat k <= w < Z.of_nat (k + m) -> key w = Ok (kf w)) ->
    first_min kf (Z.of_nat k) best ->
    exists v,
      min_by_key key best (kf best) ((fun j : nat => Z.of_nat j) <$> seq k m)
        = Ok v /\
      first_min kf (Z.of_nat (k + m)) v.
Proof.
  induction m as [|m IH]; intros k best Hkey Hbest; simpl.
  - exists best. split; [reflexivity|]. now rewrite Nat.add_0_r.
  - rewrite Hkey by lia. simpl.
    destruct Hbest as [Hb Hmin].
    replace (k + S m)%nat with (S k + m)%nat by lia.
    destruct (Z.ltb_spec (kf (Z.of_nat k)) (kf best)) as [Hlt|Hge].
    + apply IH.
      * intros w Hw. apply Hkey. lia.
      * split; [lia|]. intros w Hw.
        destruct (Z.eq_dec w (Z.of_nat k)) as [->|Hne]; [lia|].
        destruct (Hmin w) as [Hle _]; lia.
    + apply IH.
      * intros w Hw. apply Hkey. lia.
      * split; [lia|]. intros w Hw.
        destruct (Z.eq_dec w (Z.of_nat k)) as [->|Hne]; [lia|].
        apply Hmin. lia.
Qed.

Lemma py_min_range (key : Z -> result Z) (kf : Z -> Z) (n : Z) :
  0 < n ->
  (forall w, 0 <= w < n -> key w = Ok (kf w)) ->
  exists v, py_min (range n) key = Ok v /\ first_min kf n v.
Proof.
  intros Hn Hkey. unfold range.
  destruct (Z.to_nat n) as [|m] eqn:Hm; [lia|]. simpl.
  rewrite Hkey by lia. simpl.
  destruct (min_by_key_from key kf m 1%nat 0) as (v & Hv & Hfirst).
  - intros w Hw. apply Hkey. lia.
  - split; [lia|]. intros w Hw. assert (w = 0) as -> by lia. lia.
  - exists v. split; [exact Hv|].
    replace n with (Z.of_nat (1 + m)) by lia. exact Hfirst.
Qed.

Lemma lru_key_stamp (row : list CacheLine) (w : Z) :
  0 <= w < Z.of_nat (length row) ->
  (let* line := getitem row w in Ok (last_used line)) = Ok (stamp row w).
Proof.
  intros Hw. unfold stamp.
  destruct (lookup_lt_is_Some_2 row (Z.to_nat w)) as [line Hline]; [lia|].
  rewrite (getitem_lookup _ _ _ (proj1 Hw) Hline), Hline. reflexivity.
Qed.

(** ** Printing the state of a set *)

Lemma collect_lines_from (arr : list (list CacheLine)) (si : Z)
    (row : list CacheLine) (m : nat) :
  0 <= si -> arr !! Z.to_nat si = Some row ->
  forall k : nat, (k + m <= length row)%nat ->
    collect_lines arr si ((fun j : nat => Z.of_nat j) <$> seq k m)
      = Ok (take m (drop k row)).
Proof.
  intros Hsi Hrow. induction m as [|m IH]; intros k Hk; simpl.
  - reflexivity.
  - rewrite (getitem_lookup _ _ _ Hsi Hrow). simpl.
    destruct (lookup_lt_is_Some_2 row k) as [line Hline]; [lia|].
    rewrite (getitem_of_nat _ _ _ Hline). simpl.
    rewrite IH by lia. simpl.
    rewrite (drop_S _ _ _ Hline). reflexivity.
Qed.

Lemma print_set_state_row (self : CacheSimulator) (si : Z)
    (row : list CacheLine) :
  0 <= si -> cache_array self !! Z.to_nat si = Some row ->
  length row = Z.to_nat (associativity self) ->
  _print_set_state self si = Ok [LogSetState si row].
Proof.
  intros Hsi Hrow Hlen. unfold _print_set_state, range.
  rewrite (collect_lines_from _ _ row _ Hsi Hrow 0%nat) by lia.
  simpl. rewrite drop_0, <- Hlen, firstn_all. reflexivity.
Qed.

(** ** One step of the simulator on a well-shaped state *)

Lemma shaped_row (s : CacheSimulator) (si : Z) :
  shaped s -> 0 <= si < num_sets s ->
  exists row, cache_array s !! Z.to_nat si = Some row /\
              length row = Z.to_nat (associativity s).
Proof.
  intros Hs Hsi.
  destruct (lookup_lt_is_Some_2 (cache_array s) (Z.to_nat si)) as [row Hrow].
  { rewrite (shaped_rows s Hs). lia. }
  exists row. split; [exact Hrow|].
  exact (Forall_lookup_1 _ _ _ _ (shaped_cols s Hs) Hrow).
Qed.

Lemma shaped_cursor (s : CacheSimulator) (si : Z) :
  shaped s -> 0 <= si < num_sets s ->
  exists c, fifo_idx s !! Z.to_nat si = Some c /\ 0 <= c < associativity s.
Proof.
  intros Hs Hsi.
  destruct (lookup_lt_is_Some_2 (fifo_idx s) (Z.to_nat si)) as [c Hc].
  { rewrite (shaped_cursors s Hs). lia. }
  exists c. split; [exact Hc|].
  exact (Forall_lookup_1 _ _ _ _ (shaped_cursor_range s Hs) Hc).
Qed.

Lemma choose_victim_shaped (s : CacheSimulator) (si : Z)
    (row : list CacheLine) :
  shaped s -> 0 <= si < num_sets s ->
  length row = Z.to_nat (associativity s) ->
  exists v,
    choose_victim s si row =
      Ok (v, if String.eqb (replacement_policy s) "FIFO"
             then <[Z.to_nat si := (v + 1) mod associativity s]> (fifo_idx s)
             else fifo_idx s) /\
    0 <= v < associativity s /\
    (replacement_policy s = "FIFO" -> fifo_idx s !! Z.to_nat si = Some v) /\
    (replacement_policy s = "LRU" ->
     first_min (stamp row) (associativity s) v).
Proof.
  intros Hs Hsi Hlen. unfold choose_victim.
  destruct (String.eqb_spec (replacement_policy s) "FIFO") as [Hp|Hp].
  - destruct (shaped_cursor s si Hs Hsi) as (c & Hc & Hcr).
    exists c.
    rewrite (getitem_lookup _ _ _ (proj1 Hsi) Hc). simpl.
    unfold floormod.
    destruct (Z.eqb_spec (associativity s) 0) as [H0|_];
      [pose proof (shaped_ways s Hs); lia|].
    simpl.
    rewrite (setitem_lookup _ _ _ ((c + 1) mod associativity s) (proj1 Hsi) Hc).
    simpl. split; [reflexivity|]. split; [exact Hcr|]. split; [auto|].
    intros Hlru. rewrite Hlru in Hp. discriminate.
  - destruct (py_min_range
                (fun w => let* line := getitem row w in Ok (last_used line))
                (stamp row) (associativity s) (shaped_ways s Hs))
      as (v & Hv & Hmin).
    { intros w Hw. apply lru_key_stamp. lia. }
    exists v. rewrite Hv. simpl.
    split; [reflexivity|]. split; [exact (proj1 Hmin)|].
    split; [intros Hf; contradiction|auto].
Qed.

Lemma access_cache_step (s : CacheSimulator) (a : Z) :
  shaped s ->
  exists o row line,
    step_facts s a o row line /\
    access_outcome s a = Ok o /\
    access_cache s a =
      Ok (hit o,
          log_of a o ++ [LogSetState (set_index o) (row_after s a o row line)],
          after_access s a o row line).
Proof.
  intros Hs.
  pose proof (set_index_of_bounds s a (shaped_sets s Hs)) as Hsi.
  destruct (shaped_row s _ Hs Hsi) as (row & Hrow & Hlen).
  destruct (find_hit_total row (tag_value_of s a) (range (associativity s)))
    as (r & Hr & Hspec).
  { apply Forall_range. intros w Hw. lia. }
  unfold access_outcome, access_cache.
  change (set_index_of (with_access_counter s (access_counter s + 1)) a)
    with (set_index_of s a).
  change (tag_value_of (with_access_counter s (access_counter s + 1)) a)
    with (tag_value_of s a).
  cbn [cache_array associativity with_access_counter].
  rewrite (getitem_lookup _ _ _ (proj1 Hsi) Hrow). cbn [bind].
  rewrite Hr. cbn [bind].
  destruct r as [w|].
  - destruct Hspec as (Hin & line & Hline & Hvalid & Htag).
    apply elem_of_range in Hin.
    exists {| hit := true; set_index := set_index_of s a; way := w;
              evicted := None |}, row, line.
    split; [|split; [reflexivity|]].
    + constructor; cbn; auto; try discriminate.
    + rewrite (modify_line_lookup _ _ _ row line _ (proj1 Hsi) (proj1 Hin))
        by assumption.
      cbn [bind].
      rewrite (print_set_state_row _ _
                 (<[Z.to_nat w := set_last_used (access_counter s + 1) line]>
                    row)).
      * reflexivity.
      * lia.
      * cbn. apply list_lookup_insert_eq. now apply lookup_lt_Some in Hrow.
      * cbn. now rewrite length_insert.
  - destruct (choose_victim_shaped
                (with_access_counter s (access_counter s + 1))
                (set_index_of s a) row)
      as (v & Hv & Hvr & Hfifo & Hlru); auto.
    { destruct Hs; constructor; auto. }
    cbn [cache_array associativity with_access_counter replacement_policy
         fifo_idx] in Hv, Hvr, Hfifo, Hlru.
    rewrite Hv. cbn [bind].
    destruct (lookup_lt_is_Some_2 row (Z.to_nat v)) as [line Hline]; [lia|].
    rewrite (getitem_lookup _ _ _ (proj1 Hvr) Hline). cbn [bind].
    exists {| hit := false; set_index := set_index_of s a; way := v;
              evicted := if valid line then Some (tag line) else None |},
           row, line.
    split; [|split; [reflexivity|]].
    + constructor; cbn; auto; try discriminate.
      intros _. split; [reflexivity|].
      intros w l Hw Hl. apply (Hspec w l); [now apply elem_of_range|exact Hl].
    + assert (Hsi_lt : (Z.to_nat (set_index_of s a) < length (cache_array s))%nat)
        by now apply lookup_lt_Some in Hrow.
      assert (Hv_lt : (Z.to_nat v < length row)%nat) by lia.
      destruct (valid line) eqn:Hvl.
      all: erewrite modify_line_lookup; [|lia|lia|cbn; eassumption|eassumption].
      all: cbn [bind].
      all: erewrite modify_line_lookup;
        [|lia|lia|cbn; now apply list_lookup_insert_eq
         |now apply list_lookup_insert_eq].
      all: cbn [bind].
      all: erewrite modify_line_lookup;
        [|lia|lia
         |cbn; apply list_lookup_insert_eq; now rewrite length_insert
         |apply list_lookup_insert_eq; now rewrite length_insert].
      all: cbn [bind].
      all: erewrite print_set_state_row;
        [|lia
         |cbn; apply list_lookup_insert_eq; now rewrite !length_insert
         |cbn; now rewrite !length_insert].
      all: cbn [bind]; unfold log_of, row_after, after_access; cbn.
      all: rewrite !list_insert_insert_eq, ?Hvl; reflexivity.
Qed.

Lemma outcomes_cons (s : CacheSimulator) (a : Z) (trace : list Z)
    (o : Outcome) (row : list CacheLine) (line : CacheLine)
    (h : bool) (evs : list event) :
  access_outcome s a = Ok o ->
  access_cache s a = Ok (h, evs, after_access s a o row line) ->
  outcomes s (a :: trace) =
    let* os := outcomes (after_access s a o row line) trace in Ok (o :: os).
Proof. intros Ho Ha. cbn [outcomes]. now rewrite Ho, Ha. Qed.

(** ** Binary64 arithmetic: the quotient of a part by the whole, times 100 *)

Lemma fexp_eq e : fexp prec emax e = Z.max (e - 53) (-1074).
Proof. reflexivity. Qed.

Lemma fexp_mono a b : a <= b -> fexp prec emax a <= fexp prec emax b.
Proof. rewrite !fexp_eq. lia. Qed.

Lemma digits2_pos_size p : digits2_pos p = Pos.size p.
Proof. induction p; simpl; congruence. Qed.

Lemma Zdigits2_log2 m : 0 < m -> Zdigits2 m = Z.log2 m + 1.
Proof.
  destruct m as [|p|p]; try lia. intros _. simpl. rewrite digits2_pos_size.
  destruct p; simpl; lia.
Qed.

Lemma Zdigits2_nonneg m : 0 <= Zdigits2 m.
Proof. destruct m; simpl; lia. Qed.

Lemma Zdigits2_le m b : 0 <= m -> m <= b -> Zdigits2 m <= Zdigits2 b.
Proof.
  intros Hm Hb. destruct (Z.eq_dec m 0) as [->|Hn].
  - apply Zdigits2_nonneg.
  - rewrite !Zdigits2_log2 by lia. pose proof (Z.log2_le_mono m b Hb). lia.
Qed.

Lemma Zdigits2_mul_pow2 c j : 0 < c -> 0 <= j -> Zdigits2 (c * 2 ^ j) = Zdigits2 c + j.
Proof.
  intros Hc Hj. assert (0 < 2 ^ j) by (apply Z.pow_pos_nonneg; lia).
  rewrite !Zdigits2_log2 by nia. rewrite Z.log2_mul_pow2 by lia. lia.
Qed.

Lemma shr_1_spec mrs :
  0 <= shr_m mrs ->
  shr_m (shr_1 mrs) = shr_m mrs / 2 /\
  (shr_m mrs mod 2 = 0 -> shr_r mrs = false -> shr_s mrs = false ->
   shr_r (shr_1 mrs) = false /\ shr_s (shr_1 mrs) = false).
Proof.
  destruct mrs as [m r s]. simpl. intros Hm.
  destruct m as [|p|p]; try lia.
  - simpl. split; [reflexivity|]. intros _ -> ->. auto.
  - destruct p as [p|p|]; simpl.
    + split.
      * rewrite Pos2Z.inj_xI. apply (Z.div_unique _ 2 _ 1); lia.
      * rewrite Pos2Z.inj_xI. intros H. exfalso.
        rewrite Z.add_comm, Z.mul_comm, Z.mod_add in H by lia. discriminate.
    + split.
      * rewrite Pos2Z.inj_xO. apply (Z.div_unique _ 2 _ 0); lia.
      * intros _ -> ->. auto.
    + split; [reflexivity|]. intros H. discriminate.
Qed.

Lemma shifted_1 a : 0 <= shr_m a -> shifted 1 a (shr_1 a).
Proof.
  intros Ha. destruct (shr_1_spec a Ha) as [Hm Hx]. unfold shifted.
  change (2 ^ 1) with 2. rewrite Hm. split; [|split; auto].
  apply Z.div_pos; lia.
Qed.

Lemma shifted_trans i j a b c :
  0 <= i -> 0 <= j -> 0 <= shr_m a ->
  shifted i a b -> shifted j b c -> shifted (i + j) a c.
Proof.
  intros Hi Hj Ha (Hb & Hab & Hxab) (Hc & Hbc & Hxbc).
  assert (Hpi : 0 < 2 ^ i) by (apply Z.pow_pos_nonneg; lia).
  assert (Hpj : 0 < 2 ^ j) by (apply Z.pow_pos_nonneg; lia).
  split; [exact Hc|]. split.
  - rewrite Hbc, Hab, Z.pow_add_r by lia. apply Z.div_div; lia.
  - intros Hmod Hr Hs. rewrite Z.pow_add_r in Hmod by lia.
    assert (Hd : shr_m a = 2 ^ i * 2 ^ j * (shr_m a / (2 ^ i * 2 ^ j))).
    { pose proof (Z.div_mod (shr_m a) (2 ^ i * 2 ^ j)). lia. }
    set (q := shr_m a / (2 ^ i * 2 ^ j)) in Hd.
    assert (Hai : shr_m a mod 2 ^ i = 0).
    { rewrite Hd. replace (2 ^ i * 2 ^ j * q) with ((2 ^ j * q) * 2 ^ i) by ring.
      apply Z.mod_mul. lia. }
    assert (Hbj : shr_m b mod 2 ^ j = 0).
    { rewrite Hab, Hd. replace (2 ^ i * 2 ^ j * q) with ((2 ^ j * q) * 2 ^ i) by ring.
      rewrite Z.div_mul by lia. rewrite Z.mul_comm. apply Z.mod_mul. lia. }
    destruct (Hxab Hai Hr Hs) as [Hrb Hsb]. exact (Hxbc Hbj Hrb Hsb).
Qed.

Lemma iter_shr_1 p a : 0 <= shr_m a -> shifted (Zpos p) a (SpecFloat.iter_pos shr_1 p a).
Proof.
  revert a. induction p as [p IH|p IH|]; intros a Ha; simpl.
  - pose proof (shifted_1 a Ha) as H1.
    pose proof (IH _ (proj1 H1)) as H2.
    pose proof (IH _ (proj1 H2)) as H3.
    rewrite Pos2Z.inj_xI.
    replace (2 * Z.pos p + 1) with (1 + Z.pos p + Z.pos p) by lia.
    eapply shifted_trans; [lia|lia|exact Ha| |exact H3].
    eapply shifted_trans; [lia|lia|exact Ha|exact H1|exact H2].
  - pose proof (IH _ Ha) as H2.
    pose proof (IH _ (proj1 H2)) as H3.
    rewrite Pos2Z.inj_xO.
    replace (2 * Z.pos p) with (Z.pos p + Z.pos p) by lia.
    eapply shifted_trans; [lia|lia|exact Ha|exact H2|exact H3].
  - apply shifted_1; exact Ha.
Qed.

Lemma loc_of_shr_record_of_loc m l : loc_of_shr_record (shr_record_of_loc m l) = l.
Proof. destruct l as [|[ | | ]]; reflexivity. Qed.

Lemma shr_m_of_loc m l : shr_m (shr_record_of_loc m l) = m.
Proof. destruct l as [|[ | | ]]; reflexivity. Qed.

Lemma shr_spec m l e n :
  0 <= m ->
  exists mrs,
    shr (shr_record_of_loc m l) e n = (mrs, e + Z.max n 0) /\
    0 <= shr_m mrs /\
    shr_m mrs = m / 2 ^ Z.max n 0 /\
    (m mod 2 ^ Z.max n 0 = 0 -> l = loc_Exact -> loc_of_shr_record mrs = loc_Exact).
Proof.
  intros Hm. destruct n as [|p|p]; simpl shr.
  - exists (shr_record_of_loc m l). rewrite Z.add_0_r, shr_m_of_loc.
    change (2 ^ Z.max 0 0) with 1. rewrite Z.div_1_r.
    repeat split; auto. intros _ ->. reflexivity.
  - exists (SpecFloat.iter_pos shr_1 p (shr_record_of_loc m l)).
    replace (Z.max (Z.pos p) 0) with (Z.pos p) by lia.
    destruct (iter_shr_1 p (shr_record_of_loc m l)) as (H0 & Hd & Hx).
    { rewrite shr_m_of_loc. exact Hm. }
    rewrite shr_m_of_loc in Hd, Hx. repeat split; auto.
    intros Hmod ->. destruct (Hx Hmod eq_refl eq_refl) as [Hr Hs].
    destruct (SpecFloat.iter_pos shr_1 p _) as [m' r' s']. simpl in Hr, Hs. subst. reflexivity.
  - exists (shr_record_of_loc m l).
    replace (Z.max (Z.neg p) 0) with 0 by lia. rewrite Z.add_0_r, shr_m_of_loc.
    change (2 ^ 0) with 1. rewrite Z.div_1_r.
    repeat split; auto. intros _ ->. reflexivity.
Qed.

Lemma round_nearest_even_cases m l :
  round_nearest_even m l = m \/ (round_nearest_even m l = m + 1 /\ l <> loc_Exact).
Proof.
  destruct l as [|[ | | ]]; simpl.
  - left; reflexivity.
  - destruct (Z.even m);
      [left; reflexivity|right; split; [reflexivity|discriminate]].
  - left; reflexivity.
  - right; split; [reflexivity|discriminate].
Qed.

(** Rounding to nearest never crosses a bound [c * 2^k] that the format
    holds exactly: a mantissa [mx] with exponent [ex] and location [lx]
    that is at most the bound rounds to a float that is at most the
    bound. *)
Lemma binary_round_aux_le sx mx ex lx c k :
  0 <= mx -> 0 < c -> ex <= k ->
  fexp prec emax (Zdigits2 c + k) <= k -> k <= emax - prec ->
  mx <= c * 2 ^ (k - ex) ->
  (lx <> loc_Exact -> mx < c * 2 ^ (k - ex)) ->
  match binary_round_aux prec emax sx mx ex lx with
  | S754_zero s => s = sx
  | S754_finite s m e =>
      s = sx /\ ex <= e <= k /\ Z.pos m * 2 ^ (e - ex) <= c * 2 ^ (k - ex)
  | _ => False
  end.
Proof.
  intros Hmx Hc Hek Hf Hk Hle Hlt.
  set (B := c * 2 ^ (k - ex)) in *.
  assert (HdB : Zdigits2 B = Zdigits2 c + (k - ex)).
  { apply Zdigits2_mul_pow2; lia. }
  unfold binary_round_aux, shr_fexp.
  set (n1 := fexp prec emax (Zdigits2 mx + ex) - ex).
  assert (Hn1 : n1 <= k - ex).
  { unfold n1. pose proof (Zdigits2_le mx B Hmx Hle).
    pose proof (fexp_mono (Zdigits2 mx + ex) (Zdigits2 c + k)). lia. }
  destruct (shr_spec mx lx ex n1 Hmx) as (mrs1 & -> & H1 & Hd1 & Hx1).
  set (j1 := Z.max n1 0) in *.
  assert (Hj1 : 0 <= j1 <= k - ex) by lia.
  assert (Hp1 : 0 < 2 ^ j1) by (apply Z.pow_pos_nonneg; lia).
  assert (HB : B = (c * 2 ^ (k - ex - j1)) * 2 ^ j1).
  { unfold B. rewrite <- Z.mul_assoc, <- Z.pow_add_r by lia. do 2 f_equal. lia. }
  set (c1 := c * 2 ^ (k - ex - j1)) in *.
  assert (Hc1 : 0 < c1).
  { unfold c1. assert (0 < 2 ^ (k - ex - j1)) by (apply Z.pow_pos_nonneg; lia). nia. }
  set (mr := round_nearest_even (shr_m mrs1) (loc_of_shr_record mrs1)).
  assert (Hmt : shr_m mrs1 <= c1).
  { rewrite Hd1. apply Z.div_le_upper_bound; [lia|]. rewrite Z.mul_comm. lia. }
  assert (Hmr : 0 <= mr /\ mr * 2 ^ j1 <= B).
  { unfold mr.
    destruct (round_nearest_even_cases (shr_m mrs1) (loc_of_shr_record mrs1))
      as [->|[-> Hne]].
    - split; [lia|]. rewrite HB. nia.
    - split; [lia|]. rewrite HB.
      assert (shr_m mrs1 < c1); [|nia].
      destruct (Z.eq_dec (shr_m mrs1) c1) as [Heq|]; [|lia].
      exfalso.
      assert (Hge : B <= mx).
      { rewrite HB, <- Heq, Hd1. rewrite Z.mul_comm. apply Z.mul_div_le. lia. }
      assert (HmB : mx = B) by lia.
      apply Hne. apply Hx1.
      + rewrite HmB, HB. apply Z.mod_mul. lia.
      + destruct lx as [|cmp]; [reflexivity|].
        exfalso. assert (mx < B) by (apply Hlt; discriminate). lia. }
  destruct Hmr as [Hmr0 HmrB].
  set (n2 := fexp prec emax (Zdigits2 mr + (ex + j1)) - (ex + j1)).
  destruct (shr_spec mr loc_Exact (ex + j1) n2 Hmr0) as (mrs2 & -> & H2 & Hd2 & _).
  set (j2 := Z.max n2 0) in *.
  assert (Hp2 : 0 < 2 ^ j2) by (apply Z.pow_pos_nonneg; lia).
  assert (Hm2 : shr_m mrs2 * 2 ^ j2 <= mr).
  { rewrite Hd2, Z.mul_comm. apply Z.mul_div_le. lia. }
  destruct (shr_m mrs2) as [|m|m] eqn:Em; [reflexivity| |lia].
  assert (Hmrpos : 0 < mr) by nia.
  assert (He2 : ex + j1 + j2 <= k).
  { destruct (Z.le_gt_cases n2 0) as [Hn|Hn]; [lia|].
    replace j2 with n2 by lia. unfold n2.
    assert (Zdigits2 mr + j1 <= Zdigits2 B).
    { rewrite <- Zdigits2_mul_pow2 by lia. apply Zdigits2_le; nia. }
    pose proof (fexp_mono (Zdigits2 mr + (ex + j1)) (Zdigits2 c + k)). lia. }
  assert (Hfin : (ex + j1 + j2 <=? emax - prec) = true) by (apply Z.leb_le; lia).
  rewrite Hfin. split; [reflexivity|]. split; [lia|].
  replace (ex + j1 + j2 - ex) with (j2 + j1) by lia.
  rewrite Z.pow_add_r by lia. nia.
Qed.

Lemma new_location_exact n : new_location n 0 = loc_Exact.
Proof. unfold new_location, new_location_even, new_location_odd. destruct (Z.even n); reflexivity. Qed.

Lemma new_location_inexact n r : new_location n r <> loc_Exact -> r <> 0.
Proof. intros H ->. apply H, new_location_exact. Qed.

Lemma truediv_unit h t :
  0 <= h <= t -> 0 < t ->
  match truediv h t with
  | S754_zero s => s = false
  | S754_finite s m e => s = false /\ e <= 0 /\ Z.pos m <= 2 ^ (- e)
  | _ => False
  end.
Proof.
  intros Hh Ht. unfold truediv.
  destruct t as [|pt|pt]; try lia.
  destruct h as [|ph|ph]; try lia; [reflexivity|].
  cbn [exact_int SFdiv xorb]. unfold SFdiv_core_binary.
  rewrite !Z.add_0_r, Z.sub_diag.
  set (e' := Z.min (fexp prec emax (Zdigits2 (Z.pos ph) - Zdigits2 (Z.pos pt))) 0).
  assert (He' : e' <= 0) by (unfold e'; lia).
  set (m' := match 0 - e' with Z0 => Z.pos ph | Z.pos _ => Z.shiftl (Z.pos ph) (0 - e') | Z.neg _ => 0 end).
  assert (Hm' : m' = Z.pos ph * 2 ^ (0 - e')).
  { unfold m'. destruct (0 - e') as [|p|p] eqn:E; try lia.
    rewrite Z.shiftl_mul_pow2 by lia. reflexivity. }
  clearbody m'.
  pose proof (Z.div_eucl_eq m' (Z.pos pt) ltac:(lia)) as Heq.
  pose proof (Z.mod_pos_bound m' (Z.pos pt) ltac:(lia)) as Hr.
  unfold Z.modulo in Hr.
  destruct (Z.div_eucl m' (Z.pos pt)) as [q r].
  assert (Hp : 0 < 2 ^ (0 - e')) by (apply Z.pow_pos_nonneg; lia).
  assert (Hq0 : 0 <= q) by nia.
  assert (Hq1 : q <= 1 * 2 ^ (0 - e')) by nia.
  pose proof (binary_round_aux_le false q e' (new_location (Z.pos pt) r) 1 0
                Hq0 ltac:(lia) He' ltac:(vm_compute; discriminate)
                ltac:(vm_compute; discriminate) Hq1) as Hround.
  destruct (binary_round_aux prec emax false q e' (new_location (Z.pos pt) r))
    as [s|s| |s m e]; try (apply Hround; intros Hne; apply new_location_inexact in Hne; nia).
  destruct Hround as (-> & He & Hle).
  { intros Hne; apply new_location_inexact in Hne; nia. }
  split; [reflexivity|]. split; [lia|].
  assert (H2 : 2 ^ (0 - e') = 2 ^ (- e) * 2 ^ (e - e')).
  { rewrite <- Z.pow_add_r by lia. f_equal. lia. }
  assert (0 < 2 ^ (e - e')) by (apply Z.pow_pos_nonneg; lia).
  assert (0 < 2 ^ (- e)) by (apply Z.pow_pos_nonneg; lia).
  nia.
Qed.

Lemma hundred_eq : float_of_int 100 = S754_finite false 7036874417766400 (-46).
Proof. reflexivity. Qed.

Lemma scaled_le (m c e k ex : Z) :
  ex <= e -> ex <= k -> m * 2 ^ (e - ex) <= c * 2 ^ (k - ex) ->
  (inject_Z m * 2 ^ e <= inject_Z c * 2 ^ k)%Q.
Proof.
  intros He Hk Hle.
  assert (H2 : ~ (2 == 0)%Q) by discriminate.
  replace e with ((e - ex) + ex) at 1 by lia.
  replace k with ((k - ex) + ex) at 1 by lia.
  rewrite !Qpower_plus by exact H2.
  rewrite !Qmult_assoc.
  apply Qmult_le_compat_r.
  - change 2%Q with (inject_Z 2).
    rewrite <- !Zpower_Qpower by lia. rewrite <- !inject_Z_mult.
    rewrite <- Zle_Qle. exact Hle.
  - apply Qpower_pos. discriminate.
Qed.

Lemma percent_range h t :
  0 <= h <= t -> 0 < t ->
  exists q, float_value (float_mul (truediv h t) (float_of_int 100)) = Some q /\
            (0 <= q <= 100)%Q.
Proof.
  intros Hh Ht. pose proof (truediv_unit h t Hh Ht) as Hd.
  rewrite hundred_eq.
  destruct (truediv h t) as [s|s| |s m e]; try contradiction.
  - subst s. exists 0%Q. split; [reflexivity|]. split; [apply Qle_refl|discriminate].
  - destruct Hd as (-> & He & Hm).
    cbn [float_mul SFmul xorb].
    assert (Hp : 0 < 2 ^ (- e)) by (apply Z.pow_pos_nonneg; lia).
    assert (Hb : Z.pos (m * 7036874417766400) <= 25 * 2 ^ (2 - (e + -46))).
    { rewrite Pos2Z.inj_mul. replace (2 - (e + -46)) with (- e + 48) by lia.
      rewrite Z.pow_add_r by lia. change (2 ^ 48) with 281474976710656. nia. }
    pose proof (binary_round_aux_le false (Z.pos (m * 7036874417766400)) (e + -46)
                  loc_Exact 25 2 ltac:(lia) ltac:(lia) ltac:(lia)
                  ltac:(vm_compute; discriminate) ltac:(vm_compute; discriminate)
                  Hb ltac:(intros H; congruence)) as Hround.
    destruct (binary_round_aux prec emax false _ (e + -46) loc_Exact)
      as [s|s| |s m' e']; try contradiction.
    + exists 0%Q. split; [reflexivity|]. split; [apply Qle_refl|discriminate].
    + destruct Hround as (-> & He' & Hle).
      eexists. split; [reflexivity|]. cbn [cond_Zopp]. split.
      * apply Qmult_le_0_compat.
        -- change 0%Q with (inject_Z 0). rewrite <- Zle_Qle. lia.
        -- apply Qpower_pos. discriminate.
      * apply (Qle_trans _ (inject_Z 25 * 2 ^ 2)%Q).
        -- apply (scaled_le _ _ _ _ (e + -46)); [lia|lia|exact Hle].
        -- apply Qle_refl.
Qed.

(** ** Well-formedness is preserved by an access *)

Lemma rate_in_percent (part total : Z) :
  0 <= part <= total -> in_percent (rate part total).
Proof.
  intros H. unfold rate.
  destruct (Z.ltb_spec 0 total) as [Hpos|Hnpos].
  - destruct (percent_range part total H Hpos) as (q & Hq & Hr).
    exists q. split; [exact Hq|exact Hr].
  - exists 0%Q. split; [reflexivity|]. split; [apply Qle_refl|discriminate].
Qed.

(** The rate on a few counters, as Python evaluates it:
    33.33333333333333, 66.66666666666666, 77.77777777777779, 50.0,
    100.0, 0.0 and the integer 0. *)
Example rate_examples :
  rate 1 3 = PyFloat (S754_finite false 4691249611844266 (-47)) /\
  rate 2 3 = PyFloat (S754_finite false 4691249611844266 (-46)) /\
  rate 7 9 = PyFloat (S754_finite false 5473124547151645 (-46)) /\
  rate 1 2 = PyFloat (S754_finite false 7036874417766400 (-47)) /\
  rate 3 3 = PyFloat (S754_finite false 7036874417766400 (-46)) /\
  rate 0 3 = PyFloat (S754_zero false) /\
  rate 0 0 = PyInt 0.
Proof. vm_compute. repeat split. Qed.

Lemma record_access_ok (st : CacheStats) (h : bool) :
  stats_ok st -> stats_ok (record_access st h).
Proof.
  intros [Hh Ht He Hhist Hlen].
  constructor; cbn.
  - destruct h; lia.
  - destruct h; lia.
  - destruct h; lia.
  - apply Forall_app. split; [exact Hhist|].
    constructor; [|constructor].
    apply rate_in_percent. destruct h; lia.
  - rewrite length_app. cbn. lia.
Qed.

Lemma record_evicting_miss_ok (st : CacheStats) :
  stats_ok st -> stats_ok (record_access (record_eviction st) false).
Proof.
  intros [Hh Ht He Hhist Hlen].
  constructor; cbn; try lia.
  - apply Forall_app. split; [exact Hhist|].
    constructor; [|constructor].
    apply rate_in_percent. lia.
  - rewrite length_app. cbn. lia.
Qed.

Lemma line_ok_mono (c c' : Z) (l : CacheLine) :
  c <= c' -> line_ok c l -> line_ok c' l.
Proof. unfold line_ok. destruct (valid l); lia. Qed.

Lemma after_access_shaped (s : CacheSimulator) (a : Z) (o : Outcome)
    (row : list CacheLine) (line : CacheLine) :
  shaped s -> step_facts s a o row line ->
  shaped (after_access s a o row line).
Proof.
  intros Hs Hf. destruct Hs as [Hsets Hways Hpol Hrows Hcols Hcur Hcr].
  constructor; cbn; auto.
  - now rewrite length_insert.
  - apply Forall_insert; [exact Hcols|].
    unfold row_after. rewrite length_insert. exact (sf_row_len _ _ _ _ _ Hf).
  - destruct (hit o); [exact Hcur|].
    destruct (String.eqb _ _); [|exact Hcur]. now rewrite length_insert.
  - destruct (hit o); [exact Hcr|].
    destruct (String.eqb _ _); [|exact Hcr].
    apply Forall_insert; [exact Hcr|]. apply Z.mod_pos_bound. lia.
Qed.

Lemma after_access_wf (s : CacheSimulator) (a : Z) (o : Outcome)
    (row : list CacheLine) (line : CacheLine) :
  wf s -> step_facts s a o row line ->
  wf (after_access s a o row line).
Proof.
  intros [Hs Hc Hl Hst] Hf.
  constructor.
  - now apply after_access_shaped.
  - cbn. lia.
  - cbn. apply Forall_insert.
    + eapply Forall_impl; [exact Hl|]. intros r Hr.
      eapply Forall_impl; [exact Hr|]. intros l. apply line_ok_mono. lia.
    + unfold row_after. apply Forall_insert.
      * pose proof (Forall_lookup_1 _ _ _ _ Hl (sf_row _ _ _ _ _ Hf)) as Hr.
        eapply Forall_impl; [exact Hr|]. intros l. apply line_ok_mono. lia.
      * destruct (hit o) eqn:Hh.
        -- destruct (sf_hit _ _ _ _ _ Hf Hh) as (Hv & _).
           unfold line_ok. cbn. rewrite Hv. lia.
        -- unfold line_ok. cbn. lia.
  - cbn. destruct (hit o); [now apply record_access_ok|].
    destruct (valid line).
    + now apply record_evicting_miss_ok.
    + now apply record_access_ok.
Qed.

Lemma after_access_config (s : CacheSimulator) (a : Z) (o : Outcome)
    (row : list CacheLine) (line : CacheLine) :
  same_config s (after_access s a o row line).
Proof. repeat split. Qed.

Lemma reset_state_config (s : CacheSimulator) : same_config s (reset_state s).
Proof. repeat split. Qed.

Lemma same_config_trans (s1 s2 s3 : CacheSimulator) :
  same_config s1 s2 -> same_config s2 s3 -> same_config s1 s3.
Proof. unfold same_config. intuition congruence. Qed.

Lemma access_cache_wf (s : CacheSimulator) (a : Z) :
  wf s ->
  exists h evs s', access_cache s a = Ok (h, evs, s') /\ wf s'.
Proof.
  intros Hwf.
  destruct (access_cache_step s a (wf_shaped s Hwf))
    as (o & row & line & Hf & _ & Hacc).
  eexists _, _, _. split; [exact Hacc|]. now apply after_access_wf.
Qed.

Lemma run_wf (trace : list Z) :
  forall s, wf s ->
  exists hs evs s',
    run s trace = Ok (hs, evs, s') /\ wf s' /\ same_config s s'.
Proof.
  induction trace as [|a trace IH]; intros s Hwf; cbn [run].
  - eexists _, _, _. split; [reflexivity|]. split; [exact Hwf|].
    repeat split.
  - destruct (access_cache_step s a (wf_shaped s Hwf))
      as (o & row & line & Hf & _ & Hacc).
    rewrite Hacc. cbn [bind].
    destruct (IH _ (after_access_wf s a o row line Hwf Hf))
      as (hs & evs & s' & Hrun & Hwf' & Hc).
    rewrite Hrun. cbn [bind].
    eexists _, _, _. split; [reflexivity|]. split; [exact Hwf'|].
    exact Hc.
Qed.

(** ** Construction *)

Lemma init_wf (cs bs ways : Z) (policy : string) (s : CacheSimulator) :
  __init__ cs bs ways policy = Ok s -> wf s.
Proof.
  unfold __init__, floordiv.
  destruct (Z.eqb_spec bs 0) as [|Hbs]; [discriminate|]. cbn [bind].
  destruct (Z.eqb_spec ways 0) as [|Hways]; [discriminate|]. cbn [bind].
  destruct (Z.leb_spec cs 0); [discriminate|].
  destruct (Z.leb_spec bs 0); [discriminate|].
  destruct (Z.leb_spec ways 0); [discriminate|]. cbn [orb].
  destruct (Z.eqb_spec (cs / bs * bs) cs) as [Hnb|]; [|discriminate].
  destruct (Z.eqb_spec (cs / bs / ways * ways) (cs / bs)) as [Hns|];
    [|discriminate].
  cbn [negb].
  destruct (String.eqb_spec (upper policy) "FIFO") as [Hf|Hnf];
    [|destruct (String.eqb_spec (upper policy) "LRU") as [Hl|Hnl];
      [|discriminate]].
  all: cbn [orb negb]; intros [= <-].
  all: assert (0 < cs / bs / ways) by nia.
  all: constructor; [constructor|..]; cbn; auto; try lia.
  all: rewrite ?length_replicate; auto.
  all: try (apply Forall_replicate; rewrite ?length_replicate; try lia; auto).
  all: try (apply Forall_replicate; reflexivity).
  all: constructor; cbn; try lia; constructor.
Qed.

(** ** [init_cache] on a well-shaped state *)

Lemma overwrite_step {A : Type} (k m : nat) (x y : A) (l : list A) :
  l !! k = Some y ->
  overwrite (S k) m x (<[k := x]> l) = overwrite k (S m) x l.
Proof.
  intros Hk. apply lookup_lt_Some in Hk as Hlt. unfold overwrite.
  rewrite (take_S_r _ _ x) by now apply list_lookup_insert_eq.
  rewrite take_insert_ge by lia.
  rewrite drop_insert_lt by lia.
  rewrite <- app_assoc. cbn.
  now replace (k + S m)%nat with (S (k + m)) by lia.
Qed.

Lemma overwrite_all {A : Type} (x : A) (l : list A) (n : nat) :
  length l = n -> overwrite 0 n x l = replicate n x.
Proof.
  intros <-. unfold overwrite. rewrite take_0. cbn [Nat.add app].
  rewrite drop_all. apply app_nil_r.
Qed.

Lemma overwrite_nothing {A : Type} (k : nat) (x : A) (l : list A) :
  overwrite k 0 x l = l.
Proof.
  unfold overwrite. cbn. rewrite Nat.add_0_r. apply take_drop.
Qed.

Lemma init_line_lookup (s : CacheSimulator) (si : Z) (k : nat)
    (row : list CacheLine) (line : CacheLine) :
  0 <= si ->
  cache_array s !! Z.to_nat si = Some row ->
  row !! k = Some line ->
  init_line si s (Z.of_nat k) =
    Ok (with_cache_array s
          (<[Z.to_nat si := <[k := new_CacheLine]> row]> (cache_array s))).
Proof.
  intros Hsi Hrow Hline. unfold init_line.
  apply lookup_lt_Some in Hrow as Hsi_lt.
  apply lookup_lt_Some in Hline as Hk_lt.
  assert (Hk : row !! Z.to_nat (Z.of_nat k) = Some line)
    by now rewrite Nat2Z.id.
  rewrite (modify_line_lookup _ _ _ row line _ Hsi (Nat2Z.is_nonneg k))
    by assumption.
  cbn [bind]. rewrite Nat2Z.id.
  erewrite modify_line_lookup;
    [|lia|lia|cbn; now apply list_lookup_insert_eq
     |rewrite Nat2Z.id; now apply list_lookup_insert_eq].
  cbn [bind]. rewrite Nat2Z.id.
  erewrite modify_line_lookup;
    [|lia|lia
     |cbn; apply list_lookup_insert_eq; now rewrite length_insert
     |rewrite Nat2Z.id; apply list_lookup_insert_eq; now rewrite length_insert].
  rewrite Nat2Z.id. unfold with_cache_array. cbn.
  now rewrite !list_insert_insert_eq.
Qed.

Lemma init_lines_from (si : Z) (m : nat) :
  0 <= si ->
  forall (k : nat) (s : CacheSimulator) (row : list CacheLine),
    cache_array s !! Z.to_nat si = Some row ->
    (k + m <= length row)%nat ->
    for_each ((fun j : nat => Z.of_nat j) <$> seq k m) (init_line si) s =
      Ok (with_cache_array s
            (<[Z.to_nat si := overwrite k m new_CacheLine row]>
               (cache_array s))).
Proof.
  intros Hsi. induction m as [|m IH]; intros k s row Hrow Hlen; cbn.
  - rewrite overwrite_nothing, list_insert_id by exact Hrow.
    now destruct s.
  - destruct (lookup_lt_is_Some_2 row k) as [line Hline]; [lia|].
    rewrite (init_line_lookup s si k row line Hsi Hrow Hline). cbn [bind].
    apply lookup_lt_Some in Hrow as Hsi_lt.
    rewrite (IH (S k) _ (<[k := new_CacheLine]> row)).
    + unfold with_cache_array. cbn.
      now rewrite list_insert_insert_eq, (overwrite_step k m _ line).
    + cbn. now apply list_lookup_insert_eq.
    + rewrite length_insert. lia.
Qed.

Lemma init_set_lookup (s : CacheSimulator) (k : nat)
    (row : list CacheLine) (c : Z) :
  cache_array s !! k = Some row ->
  length row = Z.to_nat (associativity s) ->
  fifo_idx s !! k = Some c ->
  init_set s (Z.of_nat k) =
    Ok (with_fifo_idx
          (with_cache_array s
             (<[k := replicate (Z.to_nat (associativity s)) new_CacheLine]>
                (cache_array s)))
          (<[k := 0]> (fifo_idx s))).
Proof.
  intros Hrow Hlen Hc. unfold init_set, range.
  rewrite (init_lines_from _ _ (Nat2Z.is_nonneg k) 0%nat s row)
    by (rewrite ?Nat2Z.id; auto; lia).
  cbn [bind]. rewrite overwrite_all, Nat2Z.id by exact Hlen.
  erewrite setitem_lookup; [|lia|cbn; rewrite Nat2Z.id; exact Hc].
  cbn [bind]. now rewrite Nat2Z.id.
Qed.

Lemma init_sets_from (ways : Z) (m : nat) :
  forall (k : nat) (s : CacheSimulator),
    associativity s = ways ->
    Forall (fun row => length row = Z.to_nat ways) (cache_array s) ->
    (k + m <= length (cache_array s))%nat ->
    (k + m <= length (fifo_idx s))%nat ->
    for_each ((fun j : nat => Z.of_nat j) <$> seq k m) init_set s =
      Ok (with_fifo_idx
            (with_cache_array s
               (overwrite k m (replicate (Z.to_nat ways) new_CacheLine)
                  (cache_array s)))
            (overwrite k m 0 (fifo_idx s))).
Proof.
  induction m as [|m IH]; intros k s Hways Hcols Harr Hfifo; cbn.
  - rewrite !overwrite_nothing. now destruct s.
  - destruct (lookup_lt_is_Some_2 (cache_array s) k) as [row Hrow]; [lia|].
    destruct (lookup_lt_is_Some_2 (fifo_idx s) k) as [c Hc]; [lia|].
    pose proof (Forall_lookup_1 _ _ _ _ Hcols Hrow) as Hlen. cbn in Hlen.
    rewrite (init_set_lookup s k row c Hrow) by (rewrite ?Hways; auto).
    cbn [bind]. rewrite IH; cbn; auto.
    + unfold with_fifo_idx, with_cache_array. cbn. rewrite Hways.
      now rewrite (overwrite_step k m _ row), (overwrite_step k m _ c).
    + apply Forall_insert; [exact Hcols|].
      rewrite length_replicate. now rewrite Hways.
    + rewrite length_insert. lia.
    + rewrite length_insert. lia.
Qed.

Lemma init_cache_shaped (s : CacheSimulator) :
  shaped s ->
  init_cache s =
    Ok ([LogInit (num_sets s) (associativity s) (replacement_policy s)],
        reset_state s).
Proof.
  intros [Hsets Hways Hpol Hrows Hcols Hcur Hcr].
  unfold init_cache, range.
  rewrite (init_sets_from (associativity s) _ 0%nat s) by (auto; lia).
  cbn [bind]. cbn.
  rewrite !overwrite_all by assumption.
  reflexivity.
Qed.

Lemma reset_state_wf (s : CacheSimulator) : wf s -> wf (reset_state s).
Proof.
  intros [[Hsets Hways Hpol Hrows Hcols Hcur Hcr] Hc Hl Hst].
  constructor; [constructor|..]; cbn; auto.
  - now rewrite length_replicate.
  - apply Forall_replicate. now rewrite length_replicate.
  - now rewrite length_replicate.
  - apply Forall_replicate. lia.
  - apply Forall_replicate, Forall_replicate. reflexivity.
Qed.

Lemma init_inv (cs bs ways : Z) (policy : string) (s : CacheSimulator) :
  __init__ cs bs ways policy = Ok s ->
  s = {| cache_size := cs; block_size := bs; associativity := ways;
         replacement_policy := upper policy;
         num_blocks := cs / bs; num_sets := cs / bs / ways;
         access_counter := 0;
         cache_array :=
           replicate (Z.to_nat (cs / bs / ways))
             (replicate (Z.to_nat ways) new_CacheLine);
         fifo_idx := replicate (Z.to_nat (cs / bs / ways)) 0;
         stats := new_CacheStats |}.
Proof.
  unfold __init__, floordiv.
  destruct (bs =? 0); [discriminate|]. cbn [bind].
  destruct (ways =? 0); [discriminate|]. cbn [bind].
  destruct ((cs <=? 0) || (bs <=? 0) || (ways <=? 0)); [discriminate|].
  destruct (negb (cs / bs * bs =? cs)); [discriminate|].
  destruct (negb (cs / bs / ways * ways =? cs / bs)); [discriminate|].
  destruct (negb _); [discriminate|].
  now intros [= <-].
Qed.

(** ** Every history of a constructed cache runs to completion *)

Lemma exec_op_wf (s : CacheSimulator) (o : op) :
  wf s -> exists s', exec_op s o = Ok s' /\ wf s' /\ same_config s s'.
Proof.
  intros Hwf. destruct o as [a|]; cbn [exec_op].
  - destruct (access_cache_step s a (wf_shaped s Hwf))
      as (o & row & line & Hf & _ & Hacc).
    rewrite Hacc. cbn [bind]. eexists. split; [reflexivity|].
    split; [now apply after_access_wf|apply after_access_config].
  - rewrite (init_cache_shaped s (wf_shaped s Hwf)). cbn [bind].
    eexists. split; [reflexivity|].
    split; [now apply reset_state_wf|apply reset_state_config].
Qed.

Lemma exec_wf (ops : list op) :
  forall s, wf s -> exists s', exec s ops = Ok s' /\ wf s' /\ same_config s s'.
Proof.
  unfold exec. induction ops as [|o ops IH]; intros s Hwf; cbn [for_each].
  - exists s. split; [reflexivity|]. split; [exact Hwf|]. repeat split.
  - destruct (exec_op_wf s o Hwf) as (s1 & Hop & Hwf1 & Hc1).
    rewrite Hop. cbn [bind].
    destruct (IH s1 Hwf1) as (s' & Hex & Hwf' & Hc').
    exists s'. split; [exact Hex|]. split; [exact Hwf'|].
    eapply same_config_trans; eassumption.
Qed.

Lemma reached_wf (cs bs ways : Z) (policy : string) (s0 s : CacheSimulator)
    (ops : list op) :
  __init__ cs bs ways policy = Ok s0 -> exec s0 ops = Ok s ->
  wf s /\ same_config s0 s.
Proof.
  intros Hinit Hexec.
  destruct (exec_wf ops s0 (init_wf _ _ _ _ _ Hinit)) as (s' & Hex & Hwf & Hc).
  rewrite Hexec in Hex. injection Hex as <-. auto.
Qed.

(** * The claims *)

(** ** C1: the default trace *)

(** C1 (as the code behaves): with the default configuration and the LRU
    policy, the default trace gives miss, miss, hit, hit, miss, miss,
    miss, miss, and three evictions: the sixth access evicts the line
    of [0xA3C4], so the seventh access misses too. *)
Theorem default_trace_lru :
  exists s,
    simulate DEFAULT_CACHE_SIZE DEFAULT_BLOCK_SIZE DEFAULT_ASSOCIATIVITY
      "LRU" default_trace
    = Ok ([false; false; true; true; false; false; false; false], s) /\
    evictions (stats s) = 3 /\ hits (stats s) = 2 /\ misses (stats s) = 6.
Proof. eexists. split; [vm_compute; reflexivity|]. repeat split. Qed.

(** The outcomes that C1 states (a hit at the seventh access, two
    evictions) are not what the run produces. *)
Lemma default_trace_lru_not_as_claimed :
  exists hs s,
    simulate DEFAULT_CACHE_SIZE DEFAULT_BLOCK_SIZE DEFAULT_ASSOCIATIVITY
      "LRU" default_trace = Ok (hs, s) /\
    hs <> [false; false; true; true; false; false; true; false] /\
    evictions (stats s) <> 2.
Proof.
  eexists _, _. split; [vm_compute; reflexivity|].
  split; [discriminate|]. cbn. lia.
Qed.

(** ** C2: the number of sets is not checked to be a power of two *)

(** What the constructor checks: positive parameters, exact divisions
    and a known policy.  Nothing is asked of the number of sets. *)
Lemma init_succeeds (cs bs ways : Z) (policy : string) :
  0 < cs -> 0 < bs -> 0 < ways ->
  cs / bs * bs = cs -> cs / bs / ways * ways = cs / bs ->
  upper policy = "FIFO" \/ upper policy = "LRU" ->
  exists s, __init__ cs bs ways policy = Ok s /\ num_sets s = cs / bs / ways.
Proof.
  intros Hcs Hbs Hways Hnb Hns Hpol. unfold __init__, floordiv.
  destruct (Z.eqb_spec bs 0); [lia|]. cbn [bind].
  destruct (Z.eqb_spec ways 0); [lia|]. cbn [bind].
  destruct (Z.leb_spec cs 0); [lia|].
  destruct (Z.leb_spec bs 0); [lia|].
  destruct (Z.leb_spec ways 0); [lia|]. cbn [orb].
  rewrite Hnb, Hns, !Z.eqb_refl. cbn [negb].
  destruct Hpol as [-> | ->]; cbn; eexists; split; reflexivity.
Qed.

Lemma three_not_power_of_two : ~ power_of_two 3.
Proof.
  intros (k & Hk & H3).
  destruct (Z.eq_dec k 0) as [->|H0]; [discriminate|].
  destruct (Z.eq_dec k 1) as [->|H1]; [discriminate|].
  assert (2 ^ 2 <= 2 ^ k) by (apply Z.pow_le_mono_r; lia).
  change (2 ^ 2) with 4 in *. lia.
Qed.

(** C2 (the code at the failing input): a 48-byte cache of 16-byte
    blocks and associativity 1 is constructed without error although it
    has three sets; the mask [num_sets - 1 = 2] then never selects set 1
    and drops address bit 4, so the distinct blocks at 0x00 and 0x10
    are taken for one another (the second access hits). *)
Theorem three_sets_constructed :
  exists s,
    __init__ 48 16 1 "LRU" = Ok s /\
    num_sets s = 3 /\ ~ power_of_two (num_sets s) /\
    outcomes s [0x00; 0x10] =
      Ok [ {| hit := false; set_index := 0; way := 0; evicted := None |};
           {| hit := true; set_index := 0; way := 0; evicted := None |} ].
Proof.
  eexists. split; [vm_compute; reflexivity|].
  split; [reflexivity|]. split; [exact three_not_power_of_two|].
  vm_compute. reflexivity.
Qed.

(** ** C3: the block offset is four bits whatever the block size *)

Lemma bit_length_log2 (n : Z) : 0 < n -> bit_length n - 1 = Z.log2 n.
Proof.
  intros Hn. unfold bit_length.
  destruct (Z.eqb_spec n 0); [lia|]. rewrite Z.abs_eq by lia. lia.
Qed.

(** With 16-byte blocks the code decomposes addresses as specified. *)
Lemma decomposition_block_size_16 (cs ways : Z) (policy : string)
    (s : CacheSimulator) (address : Z) :
  __init__ cs 16 ways policy = Ok s ->
  set_index_of s address = spec_set_index s address /\
  tag_value_of s address = spec_tag s address.
Proof.
  intros Hinit.
  pose proof (shaped_sets s (wf_shaped s (init_wf _ _ _ _ _ Hinit))) as Hn.
  assert (Hbs : block_size s = 16)
    by now rewrite (init_inv _ _ _ _ _ Hinit).
  unfold set_index_of, tag_value_of, spec_set_index, spec_tag.
  rewrite Hbs, (bit_length_log2 _ Hn). split; reflexivity.
Qed.

(** C3 (the code at the failing input): with 32-byte blocks the code
    still shifts by 4.  Address 0x210 goes to set 1 with tag 2, where
    the specified decomposition gives set 0 and tag 1; the addresses
    0x00 and 0x10, which lie in the same 32-byte block, land in
    different sets and both miss. *)
Theorem block_offset_fixed_at_four :
  exists s o,
    __init__ 1024 32 2 "LRU" = Ok s /\
    access_outcome s 0x210 = Ok o /\
    set_index o = 1 /\ spec_set_index s 0x210 = 0 /\
    tag_value_of s 0x210 = 2 /\ spec_tag s 0x210 = 1 /\
    outcomes s [0x00; 0x10] =
      Ok [ {| hit := false; set_index := 0; way := 0; evicted := None |};
           {| hit := false; set_index := 1; way := 0; evicted := None |} ].
Proof.
  eexists _, _. split; [vm_compute; reflexivity|].
  split; [vm_compute; reflexivity|].
  repeat split.
Qed.

(** ** C4: the LRU victim *)



(** ** C5: the FIFO cursor *)

Lemma cycle_tail (c n : Z) (m : nat) :
  forall j0 : nat,
    (fun j : nat => (c + Z.of_nat j) mod n) <$> seq (S j0) m =
    (fun j : nat => ((c + 1) mod n + Z.of_nat j) mod n) <$> seq j0 m.
Proof.
  induction m as [|m IH]; intros j0; cbn [seq fmap list_fmap]; [reflexivity|].
  rewrite IH. f_equal.
  rewrite Zplus_mod_idemp_l. f_equal. lia.
Qed.

Lemma cycle_from_S (c n : Z) (m : nat) :
  0 <= c < n ->
  cycle_from c n (S m) = c :: cycle_from ((c + 1) mod n) n m.
Proof.
  intros Hc. unfold cycle_from. cbn [seq fmap list_fmap].
  rewrite cycle_tail. f_equal.
  rewrite Z.add_0_r. now apply Z.mod_small.
Qed.

Lemma fifo_victims_from (trace : list Z) :
  forall s,
    shaped s -> replacement_policy s = "FIFO" ->
    exists os,
      outcomes s trace = Ok os /\ length os = length trace /\
      forall k,
        (forall c, 0 <= k -> fifo_idx s !! Z.to_nat k = Some c ->
                   victims k os =
                     cycle_from c (associativity s) (length (victims k os)))
        /\ (~ 0 <= k < num_sets s -> victims k os = []).
Proof.
  induction trace as [|a trace IH]; intros s Hs Hfifo.
  - exists []. repeat split.
  - destruct (access_cache_step s a Hs) as (o & row & line & Hf & Hout & Hacc).
    rewrite (outcomes_cons s a trace o row line _ _ Hout Hacc).
    destruct (IH _ (after_access_shaped s a o row line Hs Hf) Hfifo)
      as (os & Hos & Hlen & Hvic).
    rewrite Hos. cbn [bind].
    exists (o :: os). split; [reflexivity|]. split; [cbn; now rewrite Hlen|].
    intros k. destruct (Hvic k) as [Hin Hout_range].
    pose proof (sf_set_range _ _ _ _ _ Hf) as Hsi.
    cbn [victims].
    destruct (negb (hit o) && (set_index o =? k)) eqn:Hcond.
    + apply andb_prop in Hcond as [Hmiss Hk].
      apply negb_true_iff in Hmiss. apply Z.eqb_eq in Hk.
      split; [|intros Hno; lia].
      intros c Hk0 Hc. subst k.
      pose proof (sf_fifo _ _ _ _ _ Hf Hmiss Hfifo) as Hway.
      rewrite Hc in Hway. injection Hway as ->.
      cbn [length]. rewrite cycle_from_S by exact (sf_way _ _ _ _ _ Hf).
      f_equal. apply Hin; [lia|].
      cbn. rewrite Hmiss, Hfifo. cbn.
      apply list_lookup_insert_eq. now apply lookup_lt_Some in Hc.
    + split.
      * intros c Hk0 Hc. apply Hin; [exact Hk0|].
        cbn. destruct (hit o) eqn:Hh; [exact Hc|].
        rewrite Hfifo. cbn.
        rewrite list_lookup_insert_ne; [exact Hc|].
        cbn in Hcond. apply Z.eqb_neq in Hcond. lia.
      * intros Hno. now apply Hout_range.
Qed.

(** C5: under FIFO, whatever the trace fed to a freshly constructed
    cache and whatever the set [k], the ways replaced by the successive
    misses on set [k] are 0, 1, ..., associativity-1, 0, 1, ...: the
    [j]-th of them is [j mod associativity].  The hits of the trace, on
    this set or another, and the validity of the replaced lines play no
    part. *)
Theorem fifo_victims_cycle
    (cs bs ways : Z) (policy : string) (s0 : CacheSimulator)
    (trace : list Z) :
  __init__ cs bs ways policy = Ok s0 ->
  replacement_policy s0 = "FIFO" ->
  exists os,
    outcomes s0 trace = Ok os /\ length os = length trace /\
    forall k,
      victims k os =
        (fun j : nat => Z.of_nat j mod ways) <$> seq 0 (length (victims k os)).
Proof.
  intros Hinit Hfifo.
  pose proof (wf_shaped s0 (init_wf _ _ _ _ _ Hinit)) as Hs.
  destruct (fifo_victims_from trace s0 Hs Hfifo) as (os & Hos & Hlen & Hvic).
  exists os. split; [exact Hos|]. split; [exact Hlen|].
  intros k. destruct (Hvic k) as [Hin Hout].
  assert (Hways : associativity s0 = ways)
    by now rewrite (init_inv _ _ _ _ _ Hinit).
  destruct (decide (0 <= k < num_sets s0)) as [Hk|Hk].
  - destruct (shaped_cursor s0 k Hs Hk) as (c & Hc & _).
    assert (c = 0) as ->.
    { rewrite (init_inv _ _ _ _ _ Hinit) in Hc. cbn in Hc.
      now apply lookup_replicate in Hc as [? _]. }
    rewrite (Hin 0 (proj1 Hk) Hc) at 1. now rewrite Hways.
  - now rewrite (Hout Hk).
Qed.

Lemma fifo_victims_cycle_witness :
  exists s0,
    __init__ 1024 16 2 "fifo" = Ok s0 /\
    replacement_policy s0 = "FIFO" /\
    exists os,
      outcomes s0 default_trace = Ok os /\
      length os = length default_trace /\
      forall k,
        victims k os =
          (fun j : nat => Z.of_nat j mod 2) <$> seq 0 (length (victims k os)).
Proof.
  eexists. split; [vm_compute; reflexivity|].
  split; [vm_compute; reflexivity|].
  apply (fifo_victims_cycle 1024 16 2 "fifo"); vm_compute; reflexivity.
Defined.

(** ** C6: replaying a trace after a reset *)

Lemma shift_lt (c x y : Z) :
  0 <= c -> 0 <= x -> 0 <= y -> (shift c x < shift c y <-> x < y).
Proof.
  intros Hc Hx Hy. unfold shift.
  destruct (Z.eqb_spec x 0), (Z.eqb_spec y 0); lia.
Qed.

Lemma shift_le (c x y : Z) :
  0 <= c -> 0 <= x -> 0 <= y -> (shift c x <= shift c y <-> x <= y).
Proof.
  intros Hc Hx Hy. unfold shift.
  destruct (Z.eqb_spec x 0), (Z.eqb_spec y 0); lia.
Qed.

Lemma find_hit_sim (c : Z) (row1 row2 : list CacheLine) (tv : Z)
    (ws : list Z) :
  Forall2 (line_sim c) row1 row2 ->
  Forall (fun w => 0 <= w < Z.of_nat (length row1)) ws ->
  find_hit row2 tv ws = find_hit row1 tv ws.
Proof.
  intros Hrows. induction 1 as [|w ws Hw _ IH]; cbn [find_hit]; [reflexivity|].
  destruct (lookup_lt_is_Some_2 row1 (Z.to_nat w)) as [l1 Hl1]; [lia|].
  destruct (Forall2_lookup_l _ _ _ _ _ Hrows Hl1) as (l2 & Hl2 & Hsim).
  rewrite (getitem_lookup _ _ _ (proj1 Hw) Hl1).
  rewrite (getitem_lookup _ _ _ (proj1 Hw) Hl2). cbn [bind].
  destruct Hsim as (-> & -> & _). now rewrite IH.
Qed.

Lemma stamp_sim (c : Z) (row1 row2 : list CacheLine) (w : Z) :
  Forall2 (line_sim c) row1 row2 ->
  0 <= w < Z.of_nat (length row1) ->
  0 <= stamp row1 w /\ stamp row2 w = shift c (stamp row1 w).
Proof.
  intros Hrows Hw. unfold stamp.
  destruct (lookup_lt_is_Some_2 row1 (Z.to_nat w)) as [l1 Hl1]; [lia|].
  destruct (Forall2_lookup_l _ _ _ _ _ Hrows Hl1) as (l2 & Hl2 & Hsim).
  rewrite Hl1, Hl2. destruct Hsim as (_ & _ & Hnn & Hlu). auto.
Qed.

Lemma first_min_sim (c n : Z) (row1 row2 : list CacheLine) (v : Z) :
  0 <= c ->
  Forall2 (line_sim c) row1 row2 ->
  n = Z.of_nat (length row1) ->
  first_min (stamp row2) n v -> first_min (stamp row1) n v.
Proof.
  intros Hc Hrows -> [Hv Hmin]. split; [exact Hv|].
  intros w Hw. destruct (Hmin w Hw) as [Hle Hlt].
  destruct (stamp_sim c row1 row2 v Hrows Hv) as [Hv0 Hv2].
  destruct (stamp_sim c row1 row2 w Hrows Hw) as [Hw0 Hw2].
  rewrite Hv2, Hw2 in Hle, Hlt.
  split.
  - now apply (shift_le c).
  - intros Hwv. apply (shift_lt c); auto.
Qed.

Lemma access_outcome_sim (c : Z) (s1 s2 : CacheSimulator) (a : Z) :
  shaped s1 -> shaped s2 -> sim c s1 s2 ->
  access_outcome s2 a = access_outcome s1 a.
Proof.
  intros Hs1 Hs2 [Hc Hcfg Hc1 Hcnt Hfifo Hlines].
  destruct Hcfg as (_ & _ & Hways & Hpol & _ & Hsets).
  pose proof (set_index_of_bounds s1 a (shaped_sets s1 Hs1)) as Hsi.
  destruct (shaped_row s1 _ Hs1 Hsi) as (row1 & Hrow1 & Hlen1).
  destruct (Forall2_lookup_l _ _ _ _ _ Hlines Hrow1) as (row2 & Hrow2 & Hrows).
  assert (Hlen2 : length row2 = Z.to_nat (associativity s2)).
  { rewrite <- (Forall2_length _ _ _ Hrows), Hways. exact Hlen1. }
  assert (Hset : set_index_of s2 a = set_index_of s1 a)
    by (unfold set_index_of; now rewrite Hsets).
  assert (Htag : tag_value_of s2 a = tag_value_of s1 a)
    by (unfold tag_value_of; now rewrite Hsets).
  unfold access_outcome.
  change (set_index_of (with_access_counter s2 (access_counter s2 + 1)) a)
    with (set_index_of s2 a).
  change (tag_value_of (with_access_counter s2 (access_counter s2 + 1)) a)
    with (tag_value_of s2 a).
  change (set_index_of (with_access_counter s1 (access_counter s1 + 1)) a)
    with (set_index_of s1 a).
  change (tag_value_of (with_access_counter s1 (access_counter s1 + 1)) a)
    with (tag_value_of s1 a).
  cbn [cache_array associativity with_access_counter].
  rewrite Hset, Htag, Hways.
  rewrite (getitem_lookup _ _ _ (proj1 Hsi) Hrow1).
  rewrite (getitem_lookup _ _ _ (proj1 Hsi) Hrow2). cbn [bind].
  rewrite (find_hit_sim c row1 row2) by
    (auto; apply Forall_range; intros w Hw; lia).
  destruct (find_hit row1 (tag_value_of s1 a) (range (associativity s1)))
    as [[w|]|e]; cbn [bind]; try reflexivity.
  destruct (choose_victim_shaped
              (with_access_counter s1 (access_counter s1 + 1))
              (set_index_of s1 a) row1)
    as (v1 & Hv1 & Hvr1 & Hf1 & Hl1); auto.
  { destruct Hs1; constructor; auto. }
  destruct (choose_victim_shaped
              (with_access_counter s2 (access_counter s2 + 1))
              (set_index_of s1 a) row2)
    as (v2 & Hv2 & Hvr2 & Hf2 & Hl2); auto.
  { destruct Hs2; constructor; auto. }
  { cbn. lia. }
  cbn [cache_array associativity with_access_counter replacement_policy
       fifo_idx num_sets] in *.
  rewrite Hv1, Hv2. cbn [bind].
  assert (v2 = v1) as ->.
  { destruct (shaped_policy s1 Hs1) as [Hp|Hp].
    - specialize (Hf1 Hp). rewrite <- Hpol in Hp. specialize (Hf2 Hp).
      rewrite Hfifo in Hf2. congruence.
    - specialize (Hl1 Hp). rewrite <- Hpol in Hp. specialize (Hl2 Hp).
      rewrite Hways in Hl2.
      apply (first_min_unique (stamp row1) (associativity s1)); [|exact Hl1].
      apply (first_min_sim c _ row1 row2); auto. lia. }
  destruct (lookup_lt_is_Some_2 row1 (Z.to_nat v1)) as [l1 Hline1]; [lia|].
  destruct (Forall2_lookup_l _ _ _ _ _ Hrows Hline1) as (l2 & Hline2 & Hsim).
  rewrite (getitem_lookup _ _ _ (proj1 Hvr1) Hline1).
  rewrite (getitem_lookup _ _ _ (proj1 Hvr1) Hline2). cbn [bind].
  destruct Hsim as (-> & -> & _). reflexivity.
Qed.

Lemma after_access_sim (c : Z) (s1 s2 : CacheSimulator) (a : Z) (o : Outcome)
    (row1 row2 : list CacheLine) (line1 line2 : CacheLine) :
  sim c s1 s2 ->
  step_facts s1 a o row1 line1 -> step_facts s2 a o row2 line2 ->
  sim c (after_access s1 a o row1 line1) (after_access s2 a o row2 line2).
Proof.
  intros [Hc Hcfg Hc1 Hcnt Hfifo Hlines] Hf1 Hf2.
  pose proof Hcfg as (_ & _ & Hways & Hpol & _ & Hsets).
  pose proof (Forall2_lookup_lr _ _ _ _ _ _ Hlines
                (sf_row _ _ _ _ _ Hf1) (sf_row _ _ _ _ _ Hf2)) as Hrows.
  pose proof (Forall2_lookup_lr _ _ _ _ _ _ Hrows
                (sf_line _ _ _ _ _ Hf1) (sf_line _ _ _ _ _ Hf2)) as Hline.
  constructor; cbn; auto; try lia.
  - now rewrite Hfifo, Hpol, Hways.
  - apply Forall2_insert; [exact Hlines|].
    unfold row_after. apply Forall2_insert; [exact Hrows|].
    assert (Hsh : access_counter s2 + 1 = shift c (access_counter s1 + 1)).
    { unfold shift. destruct (Z.eqb_spec (access_counter s1 + 1) 0); lia. }
    destruct (hit o).
    + destruct Hline as (Hv & Ht & _). repeat split; cbn; auto. lia.
    + repeat split; cbn; auto; [|lia].
      unfold tag_value_of. now rewrite Hsets.
Qed.

Lemma outcomes_sim (c : Z) (trace : list Z) :
  forall s1 s2,
    shaped s1 -> shaped s2 -> sim c s1 s2 ->
    exists os, outcomes s1 trace = Ok os /\ outcomes s2 trace = Ok os /\
               length os = length trace.
Proof.
  induction trace as [|a trace IH]; intros s1 s2 Hs1 Hs2 Hsim.
  - exists []. repeat split.
  - destruct (access_cache_step s1 a Hs1)
      as (o1 & row1 & line1 & Hf1 & Hout1 & Hacc1).
    destruct (access_cache_step s2 a Hs2)
      as (o2 & row2 & line2 & Hf2 & Hout2 & Hacc2).
    rewrite (access_outcome_sim c s1 s2 a Hs1 Hs2 Hsim), Hout1 in Hout2.
    injection Hout2 as <-.
    rewrite (outcomes_cons s1 a trace o1 row1 line1 _ _ Hout1 Hacc1).
    assert (Hout2 : access_outcome s2 a = Ok o1)
      by now rewrite (access_outcome_sim c s1 s2 a Hs1 Hs2 Hsim).
    rewrite (outcomes_cons s2 a trace o1 row2 line2 _ _ Hout2 Hacc2).
    destruct (IH _ _ (after_access_shaped _ _ _ _ _ Hs1 Hf1)
                (after_access_shaped _ _ _ _ _ Hs2 Hf2)
                (after_access_sim c _ _ _ _ _ _ _ _ Hsim Hf1 Hf2))
      as (os & Hos1 & Hos2 & Hlen).
    rewrite Hos1, Hos2. cbn [bind].
    exists (o1 :: os). repeat split. cbn. now rewrite Hlen.
Qed.

(** C6: take a constructed cache in any state it can reach, reset it
    with [init_cache] (the access counter keeps its value), and feed it
    a trace: the outcomes (hit or miss, set, way, evicted tag if any)
    are those of the same trace fed to the freshly constructed
    cache. *)
Theorem replay_after_reset_same_outcomes
    (cs bs ways : Z) (policy : string) (s0 s : CacheSimulator)
    (ops : list op) (trace : list Z) :
  __init__ cs bs ways policy = Ok s0 ->
  exec s0 ops = Ok s ->
  exists evs s_r os,
    init_cache s = Ok (evs, s_r) /\
    access_counter s_r = access_counter s /\
    outcomes s0 trace = Ok os /\
    outcomes s_r trace = Ok os /\
    length os = length trace.
Proof.
  intros Hinit Hexec.
  pose proof (init_wf _ _ _ _ _ Hinit) as Hwf0.
  destruct (reached_wf _ _ _ _ _ _ _ Hinit Hexec) as [Hwf Hcfg].
  rewrite (init_cache_shaped s (wf_shaped s Hwf)).
  assert (Hsim : sim (access_counter s) s0 (reset_state s)).
  { pose proof Hcfg as (_ & _ & Hways & _ & _ & Hsets).
    pose proof (init_inv _ _ _ _ _ Hinit) as Hs0.
    constructor.
    - exact (wf_counter s Hwf).
    - eapply same_config_trans; [exact Hcfg|apply reset_state_config].
    - rewrite Hs0. cbn. lia.
    - rewrite Hs0. cbn. lia.
    - cbn. rewrite Hsets, Hs0. reflexivity.
    - cbn. rewrite Hsets, Hways, Hs0. cbn.
      apply Forall2_replicate, Forall2_replicate.
      repeat split; cbn; lia. }
  destruct (outcomes_sim _ trace s0 (reset_state s)
              (wf_shaped s0 Hwf0)
              (wf_shaped _ (reset_state_wf s Hwf)) Hsim)
    as (os & Hos1 & Hos2 & Hlen).
  eexists _, _, os. split; [reflexivity|]. auto.
Qed.

Lemma replay_after_reset_same_outcomes_witness :
  exists s0 s,
    __init__ 1024 16 2 "LRU" = Ok s0 /\
    exec s0 (Access <$> default_trace) = Ok s /\
    exists evs s_r os,
      init_cache s = Ok (evs, s_r) /\
      access_counter s_r = access_counter s /\
      outcomes s0 default_trace = Ok os /\
      outcomes s_r default_trace = Ok os /\
      length os = length default_trace.
Proof.
  eexists _, _.
  split; [vm_compute; reflexivity|].
  split; [vm_compute; reflexivity|].
  eapply (replay_after_reset_same_outcomes 1024 16 2 "LRU" _ _
            (Access <$> default_trace));
    vm_compute; reflexivity.
Defined.

(** ** C7: what [init_cache] changes *)

(** C7: on every state that a constructed cache can reach, [init_cache]
    succeeds and leaves every line of every set invalid with tag 0 and
    stamp 0 and every FIFO cursor at 0, in arrays of the same
    dimensions; the access counter, the statistics and the
    configuration keep their values. *)
Theorem init_cache_resets_lines_and_cursors_only
    (cs bs ways : Z) (policy : string) (s0 s : CacheSimulator)
    (ops : list op) :
  __init__ cs bs ways policy = Ok s0 ->
  exec s0 ops = Ok s ->
  exists evs s',
    init_cache s = Ok (evs, s') /\
    cache_array s' =
      replicate (length (cache_array s))
        (replicate (Z.to_nat (associativity s))
           {| valid := false; tag := 0; last_used := 0 |}) /\
    Forall (fun row => length row = Z.to_nat (associativity s))
      (cache_array s) /\
    fifo_idx s' = replicate (length (fifo_idx s)) 0 /\
    access_counter s' = access_counter s /\
    stats s' = stats s /\
    same_config s s'.
Proof.
  intros Hinit Hexec.
  destruct (reached_wf _ _ _ _ _ _ _ Hinit Hexec) as [Hwf _].
  pose proof (wf_shaped s Hwf) as Hs.
  rewrite (init_cache_shaped s Hs).
  eexists _, _. split; [reflexivity|].
  cbn. rewrite (shaped_rows s Hs), (shaped_cursors s Hs).
  repeat split. exact (shaped_cols s Hs).
Qed.

Lemma init_cache_resets_lines_and_cursors_only_witness :
  exists s0 s,
    __init__ 64 16 2 "fifo" = Ok s0 /\
    exec s0 [Access 0xA3C4; Access 0xB3C4; Reinit; Access 0xC3C4] = Ok s /\
    exists evs s',
      init_cache s = Ok (evs, s') /\
      cache_array s' =
        replicate (length (cache_array s))
          (replicate (Z.to_nat (associativity s))
             {| valid := false; tag := 0; last_used := 0 |}) /\
      Forall (fun row => length row = Z.to_nat (associativity s))
        (cache_array s) /\
      fifo_idx s' = replicate (length (fifo_idx s)) 0 /\
      access_counter s' = access_counter s /\
      stats s' = stats s /\
      same_config s s'.
Proof.
  eexists _, _.
  split; [vm_compute; reflexivity|].
  split; [vm_compute; reflexivity|].
  eapply (init_cache_resets_lines_and_cursors_only 64 16 2 "fifo" _ _
            [Access 0xA3C4; Access 0xB3C4; Reinit; Access 0xC3C4]);
    vm_compute; reflexivity.
Defined.

(** ** C8: capacity of a set *)

Lemma valid_lines_le_length (row : list CacheLine) :
  (valid_lines row <= length row)%nat.
Proof. unfold valid_lines. apply List.filter_length_le. Qed.

(** C8: after any trace fed to a freshly constructed cache, there are
    [num_sets] sets and each holds at most [associativity] valid
    lines. *)
Theorem sets_hold_at_most_associativity_valid_lines
    (cs bs ways : Z) (policy : string) (s0 : CacheSimulator)
    (trace : list Z) :
  __init__ cs bs ways policy = Ok s0 ->
  exists hs evs s,
    run s0 trace = Ok (hs, evs, s) /\
    associativity s = ways /\
    Z.of_nat (length (cache_array s)) = num_sets s /\
    forall row, row ∈ cache_array s ->
                Z.of_nat (valid_lines row) <= associativity s.
Proof.
  intros Hinit.
  destruct (run_wf trace s0 (init_wf _ _ _ _ _ Hinit))
    as (hs & evs & s & Hrun & Hwf & Hc).
  exists hs, evs, s. split; [exact Hrun|].
  pose proof (wf_shaped s Hwf) as Hs.
  split; [|split].
  - destruct Hc as (_ & _ & -> & _). now rewrite (init_inv _ _ _ _ _ Hinit).
  - rewrite (shaped_rows s Hs). pose proof (shaped_sets s Hs). lia.
  - intros row Hrow.
    apply list_elem_of_lookup in Hrow as [i Hi].
    pose proof (Forall_lookup_1 _ _ _ _ (shaped_cols s Hs) Hi) as Hlen.
    cbn in Hlen. pose proof (valid_lines_le_length row).
    pose proof (shaped_ways s Hs). lia.
Qed.

Lemma sets_hold_at_most_associativity_valid_lines_witness :
  exists s0,
    __init__ 1024 16 2 "LRU" = Ok s0 /\
    exists hs evs s,
      run s0 default_trace = Ok (hs, evs, s) /\
      associativity s = 2 /\
      Z.of_nat (length (cache_array s)) = num_sets s /\
      forall row, row ∈ cache_array s ->
                  Z.of_nat (valid_lines row) <= associativity s.
Proof.
  eexists. split; [vm_compute; reflexivity|].
  apply (sets_hold_at_most_associativity_valid_lines 1024 16 2 "LRU").
  vm_compute; reflexivity.
Defined.

(** ** C9: the hit-rate samples *)

Lemma hits_among_bounds (hs : list bool) :
  0 <= hits_among hs <= Z.of_nat (length hs).
Proof.
  induction hs as [|b hs IH]; cbn [hits_among length]; [lia|].
  destruct b; lia.
Qed.

Lemma samples_length (hs : list bool) :
  forall h t : Z, length (samples hs h t) = length hs.
Proof.
  induction hs as [|b hs IH]; intros h t; cbn; [reflexivity|].
  now rewrite IH.
Qed.

Lemma samples_lookup (hs : list bool) :
  forall (h t : Z) (k : nat) (q : number),
    samples hs h t !! k = Some q ->
    q = rate (h + hits_among (take (S k) hs)) (t + Z.of_nat (S k)).
Proof.
  induction hs as [|b hs IH]; intros h t k q Hq; [discriminate|].
  destruct k as [|k]; cbn in Hq.
  - injection Hq as <-. cbn [take hits_among].
    rewrite take_0. cbn [hits_among].
    f_equal; destruct b; lia.
  - apply IH in Hq. subst q. cbn [take hits_among].
    f_equal; destruct b; lia.
Qed.

Lemma run_history (trace : list Z) :
  forall s hs evs s',
    shaped s -> run s trace = Ok (hs, evs, s') ->
    length hs = length trace /\
    hit_rate_history (stats s') =
      hit_rate_history (stats s)
      ++ samples hs (hits (stats s)) (total_accesses (stats s)).
Proof.
  induction trace as [|a trace IH]; intros s hs evs s' Hs Hrun;
    cbn [run] in Hrun.
  - injection Hrun as <- <- <-. cbn. now rewrite app_nil_r.
  - destruct (access_cache_step s a Hs) as (o & row & line & Hf & _ & Hacc).
    rewrite Hacc in Hrun. cbn [bind] in Hrun.
    destruct (run (after_access s a o row line) trace)
      as [[[hs1 evs1] s1]|] eqn:Hrun1; [|discriminate].
    cbn [bind] in Hrun. injection Hrun as <- <- <-.
    destruct (IH _ _ _ _ (after_access_shaped s a o row line Hs Hf) Hrun1)
      as [Hlen Hhist].
    split; [cbn; now rewrite Hlen|].
    rewrite Hhist. cbn [samples].
    cbn. destruct (hit o); cbn; [now rewrite <- app_assoc|].
    destruct (valid line); cbn; now rewrite <- app_assoc.
Qed.

(** C9, amended: after any trace fed to a freshly constructed cache
    there is one sample per access, and every sample lies between 0 and
    100.  The sample of access number [k+1] is the float that
    [(hits / total_accesses) * 100] evaluates to for the [hits] among
    the first [k+1] accesses and [total_accesses = k+1], with
    [0 <= hits <= k+1]: the quotient rounded to binary64, then the
    product rounded again. *)
Theorem hit_rate_samples_in_percent
    (cs bs ways : Z) (policy : string) (s0 : CacheSimulator)
    (trace : list Z) :
  __init__ cs bs ways policy = Ok s0 ->
  exists hs evs s,
    run s0 trace = Ok (hs, evs, s) /\
    length (hit_rate_history (stats s)) = length trace /\
    forall (k : nat) (x : number),
      hit_rate_history (stats s) !! k = Some x ->
      let h := hits_among (take (S k) hs) in
      let t := Z.of_nat (S k) in
      0 <= h <= t /\
      x = PyFloat (float_mul (truediv h t) (float_of_int 100)) /\
      exists q : Q, number_value x = Some q /\ (0 <= q)%Q /\ (q <= 100)%Q.
Proof.
  intros Hinit.
  pose proof (init_wf _ _ _ _ _ Hinit) as Hwf0.
  destruct (run_wf trace s0 Hwf0) as (hs & evs & s & Hrun & Hwf & _).
  exists hs, evs, s. split; [exact Hrun|].
  destruct (run_history trace _ _ _ _ (wf_shaped s0 Hwf0) Hrun)
    as [Hlen Hhist].
  rewrite (init_inv _ _ _ _ _ Hinit) in Hhist. cbn in Hhist.
  split.
  - now rewrite Hhist, samples_length.
  - intros k x Hx h t. rewrite Hhist in Hx.
    apply samples_lookup in Hx. rewrite !Z.add_0_l in Hx. fold h t in Hx.
    pose proof (hits_among_bounds (take (S k) hs)) as Hb.
    assert (Hlen_take : (length (take (S k) hs) <= S k)%nat)
      by (rewrite length_take; lia).
    assert (Hht : 0 <= h <= t) by (subst h t; lia).
    split; [exact Hht|].
    pose proof (rate_in_percent h t Hht) as Hpc. rewrite <- Hx in Hpc.
    split; [|exact Hpc].
    subst x. unfold rate.
    destruct (Z.ltb_spec 0 t); [reflexivity|subst t; lia].
Qed.

Lemma hit_rate_samples_in_percent_witness :
  exists s0,
    __init__ 1024 16 2 "LRU" = Ok s0 /\
    exists hs evs s,
      run s0 default_trace = Ok (hs, evs, s) /\
      length (hit_rate_history (stats s)) = length default_trace /\
      forall (k : nat) (x : number),
        hit_rate_history (stats s) !! k = Some x ->
        let h := hits_among (take (S k) hs) in
        let t := Z.of_nat (S k) in
        0 <= h <= t /\
        x = PyFloat (float_mul (truediv h t) (float_of_int 100)) /\
        exists q : Q, number_value x = Some q /\ (0 <= q)%Q /\ (q <= 100)%Q.
Proof.
  eexists. split; [vm_compute; reflexivity|].
  apply (hit_rate_samples_in_percent 1024 16 2 "LRU").
  vm_compute; reflexivity.
Defined.

(** The sample is not [100 * hits / total_accesses], as C9 has it: after
    a miss, a miss and a hit, one hit in three accesses, the third
    sample is 33.33333333333333, the float 4691249611844266 * 2^-47.
    It is neither the rational 100 * 1 / 3 nor the float that
    [100 * hits / total_accesses] evaluates to, which is the next one
    up, 4691249611844267 * 2^-47. *)
Lemma hit_rate_sample_not_exact :
  exists s0 hs evs s x q,
    __init__ 1024 16 2 "LRU" = Ok s0 /\
    run s0 [0x00; 0x10; 0x00] = Ok (hs, evs, s) /\
    hs = [false; false; true] /\
    hits (stats s) = 1 /\ total_accesses (stats s) = 3 /\
    hit_rate_history (stats s) !! 2%nat = Some x /\
    x = PyFloat (S754_finite false 4691249611844266 (-47)) /\
    number_value x = Some q /\
    ~ (q == 100 * 1 / 3)%Q /\
    x <> PyFloat (truediv (100 * 1) 3).
Proof.
  eexists _, _, _, _, _, _.
  split; [vm_compute; reflexivity|].
  split; [vm_compute; reflexivity|].
  split; [reflexivity|].
  split; [vm_compute; reflexivity|].
  split; [vm_compute; reflexivity|].
  split; [vm_compute; reflexivity|].
  split; [reflexivity|].
  split; [reflexivity|].
  split.
  - vm_compute. intros H. discriminate H.
  - vm_compute. intros H. discriminate H.
Qed.

(** ** C10: the counters *)

(** C10: after any trace fed to a freshly constructed cache the
    counters satisfy [hits + misses = total_accesses] and
    [evictions <= misses]; and whatever the next address, the access
    raises [evictions] by one exactly when it is a miss whose victim
    line is valid, and leaves it unchanged otherwise (on a hit in
    particular). *)
Theorem counters_consistent
    (cs bs ways : Z) (policy : string) (s0 : CacheSimulator)
    (trace : list Z) :
  __init__ cs bs ways policy = Ok s0 ->
  exists hs evs s,
    run s0 trace = Ok (hs, evs, s) /\
    hits (stats s) + misses (stats s) = total_accesses (stats s) /\
    0 <= evictions (stats s) <= misses (stats s) /\
    forall a, exists o row line evs' s',
      access_outcome s a = Ok o /\
      access_cache s a = Ok (hit o, evs', s') /\
      cache_array s !! Z.to_nat (set_index o) = Some row /\
      row !! Z.to_nat (way o) = Some line /\
      evictions (stats s') =
        evictions (stats s) + (if negb (hit o) && valid line then 1 else 0).
Proof.
  intros Hinit.
  destruct (run_wf trace s0 (init_wf _ _ _ _ _ Hinit))
    as (hs & evs & s & Hrun & Hwf & _).
  exists hs, evs, s. split; [exact Hrun|].
  destruct (wf_stats s Hwf) as [_ Ht He _ _].
  split; [exact Ht|]. split; [exact He|].
  intros a.
  destruct (access_cache_step s a (wf_shaped s Hwf))
    as (o & row & line & Hf & Hout & Hacc).
  exists o, row, line. eexists _, _.
  split; [exact Hout|]. split; [exact Hacc|].
  split; [exact (sf_row _ _ _ _ _ Hf)|].
  split; [exact (sf_line _ _ _ _ _ Hf)|].
  cbn. destruct (hit o); cbn; [lia|].
  destruct (valid line); cbn; lia.
Qed.

Lemma counters_consistent_witness :
  exists s0,
    __init__ 1024 16 2 "LRU" = Ok s0 /\
    exists hs evs s,
      run s0 default_trace = Ok (hs, evs, s) /\
      hits (stats s) + misses (stats s) = total_accesses (stats s) /\
      0 <= evictions (stats s) <= misses (stats s) /\
      forall a, exists o row line evs' s',
        access_outcome s a = Ok o /\
        access_cache s a = Ok (hit o, evs', s') /\
        cache_array s !! Z.to_nat (set_index o) = Some row /\
        row !! Z.to_nat (way o) = Some line /\
        evictions (stats s') =
          evictions (stats s) + (if negb (hit o) && valid line then 1 else 0).
Proof.
  eexists. split; [vm_compute; reflexivity|].
  apply (counters_consistent 1024 16 2 "LRU").
  vm_compute; reflexivity.
Defined.

(** * Further properties of the simulator *)

(** ** Induction over the histories of a constructed cache *)

Lemma exec_app (ops1 ops2 : list op) (s : CacheSimulator) :
  exec s (ops1 ++ ops2) = let* s1 := exec s ops1 in exec s1 ops2.
Proof.
  unfold exec. revert s.
  induction ops1 as [|o ops1 IH]; intros s; cbn [for_each app]; [reflexivity|].
  destruct (exec_op s o) as [s1|e]; cbn [bind]; [apply IH|reflexivity].
Qed.

Lemma reached_invariant (P : CacheSimulator -> Prop) :
  (forall cs bs ways policy s0, __init__ cs bs ways policy = Ok s0 -> P s0) ->
  (forall s a o row line,
      wf s -> P s -> step_facts s a o row line ->
      P (after_access s a o row line)) ->
  (forall s, wf s -> P s -> P (reset_state s)) ->
  forall cs bs ways policy s0 ops s,
    __init__ cs bs ways policy = Ok s0 -> exec s0 ops = Ok s -> P s.
Proof.
  intros Hinit Hacc Hreset cs bs ways policy s0 ops s Hs0 Hexec.
  assert (Hgen : forall ops s1, wf s1 -> P s1 ->
                 forall s2, exec s1 ops = Ok s2 -> P s2).
  { clear ops s Hexec. unfold exec.
    induction ops as [|o ops IH]; intros s1 Hwf HP s2 Hex; cbn [for_each] in Hex.
    - now injection Hex as <-.
    - destruct o as [a|]; cbn [exec_op] in Hex.
      + destruct (access_cache_step s1 a (wf_shaped s1 Hwf))
          as (o & row & line & Hf & _ & Hstep).
        rewrite Hstep in Hex. cbn [bind] in Hex.
        eapply IH; [|eapply Hacc; eassumption|exact Hex].
        now apply after_access_wf.
      + rewrite (init_cache_shaped s1 (wf_shaped s1 Hwf)) in Hex.
        cbn [bind] in Hex.
        eapply IH; [|apply Hreset; eassumption|exact Hex].
        now apply reset_state_wf. }
  eapply Hgen; [exact (init_wf _ _ _ _ _ Hs0)|eapply Hinit; exact Hs0|exact Hexec].
Qed.

(** ** Construction *)

Lemma init_checks (cs bs ways : Z) (policy : string) (s : CacheSimulator) :
  __init__ cs bs ways policy = Ok s ->
  0 < cs /\ 0 < bs /\ 0 < ways /\
  cs / bs * bs = cs /\ cs / bs / ways * ways = cs / bs /\
  (upper policy = "FIFO" \/ upper policy = "LRU").
Proof.
  unfold __init__, floordiv.
  destruct (Z.eqb_spec bs 0) as [|Hbs]; [discriminate|]. cbn [bind].
  destruct (Z.eqb_spec ways 0) as [|Hways]; [discriminate|]. cbn [bind].
  destruct (Z.leb_spec cs 0); [discriminate|].
  destruct (Z.leb_spec bs 0); [discriminate|].
  destruct (Z.leb_spec ways 0); [discriminate|]. cbn [orb].
  destruct (Z.eqb_spec (cs / bs * bs) cs) as [Hnb|]; [|discriminate].
  destruct (Z.eqb_spec (cs / bs / ways * ways) (cs / bs)) as [Hns|];
    [|discriminate].
  cbn [negb].
  destruct (String.eqb_spec (upper policy) "FIFO") as [Hf|Hnf];
    [|destruct (String.eqb_spec (upper policy) "LRU") as [Hl|Hnl];
      [|discriminate]].
  all: intros _; repeat split; auto.
Qed.

(** X1: the two divisions come before the validation, so a block size
    of 0, or an associativity of 0 with a non-zero block size, raises
    [ZeroDivisionError] and not the [ValueError] of the validation,
    whatever the other arguments. *)
Theorem init_zero_divisor (cs bs ways : Z) (policy : string) :
  bs = 0 \/ ways = 0 ->
  __init__ cs bs ways policy = Raise ZeroDivisionError.
Proof.
  intros H. unfold __init__, floordiv.
  destruct (Z.eqb_spec bs 0) as [|Hbs]; [reflexivity|]. cbn [bind].
  destruct (Z.eqb_spec ways 0) as [|Hways]; [reflexivity|]. lia.
Qed.

Lemma init_zero_divisor_witness :
  (1024 = 0 \/ 0 = 0) /\ __init__ 1024 1024 0 "LRU" = Raise ZeroDivisionError.
Proof.
  split; [right; reflexivity|].
  apply (init_zero_divisor 1024 1024 0 "LRU"). right; reflexivity.
Defined.

(** X2: with a policy name in ASCII, construction succeeds exactly when
    the three sizes are positive, the block size divides the cache
    size, the associativity divides the number of blocks and the
    policy, in upper case, is FIFO or LRU. *)
Theorem init_ok_iff (cs bs ways : Z) (policy : string) :
  is_ascii policy = true ->
  ((exists s, __init__ cs bs ways policy = Ok s) <->
   0 < cs /\ 0 < bs /\ 0 < ways /\
   cs mod bs = 0 /\ (cs / bs) mod ways = 0 /\
   (upper policy = "FIFO" \/ upper policy = "LRU")).
Proof.
  intros _. split.
  - intros [s Hs].
    destruct (init_checks _ _ _ _ _ Hs) as (Hcs & Hbs & Hw & Hnb & Hns & Hp).
    repeat split; auto.
    + rewrite Z.mod_eq by lia. lia.
    + rewrite Z.mod_eq by lia. lia.
  - intros (Hcs & Hbs & Hw & Hnb & Hns & Hp).
    rewrite Z.mod_eq in Hnb, Hns by lia.
    destruct (init_succeeds cs bs ways policy) as (s & Hs & _); auto; try lia.
    now exists s.
Qed.

Lemma init_ok_iff_witness :
  is_ascii "lru" = true /\
  ((exists s, __init__ 1024 16 2 "lru" = Ok s) <->
   0 < 1024 /\ 0 < 16 /\ 0 < 2 /\
   1024 mod 16 = 0 /\ (1024 / 16) mod 2 = 0 /\
   (upper "lru" = "FIFO" \/ upper "lru" = "LRU")).
Proof.
  split; [reflexivity|].
  apply (init_ok_iff 1024 16 2 "lru"). reflexivity.
Defined.

Lemma upper_ascii_idempotent (c : ascii) :
  upper_ascii (upper_ascii c) = upper_ascii c.
Proof.
  destruct c as [[] [] [] [] [] [] [] []]; reflexivity.
Qed.

Lemma upper_idempotent (p : string) : upper (upper p) = upper p.
Proof.
  induction p as [|c p IH]; cbn [upper]; [reflexivity|].
  now rewrite upper_ascii_idempotent, IH.
Qed.

(** X3: the policy name is read without regard to case: a policy and
    its upper-case form give the same result, error or cache. *)
Theorem init_policy_case (cs bs ways : Z) (policy : string) :
  __init__ cs bs ways policy = __init__ cs bs ways (upper policy).
Proof. unfold __init__. now rewrite upper_idempotent. Qed.

(** ** Geometry *)

Lemma length_concat_rows (arr : list (list CacheLine)) (n : nat) :
  Forall (fun row => length row = n) arr ->
  length (concat arr) = (length arr * n)%nat.
Proof.
  induction 1 as [|row arr Hrow _ IH]; cbn [concat length]; [reflexivity|].
  rewrite length_app, Hrow, IH. lia.
Qed.

(** X4: in every state that a constructed cache can reach, the
    configuration satisfies
    [num_sets * associativity * block_size = cache_size] and the array
    holds [num_blocks = num_sets * associativity] lines, one cursor per
    set. *)
Theorem geometry_kept
    (cs bs ways : Z) (policy : string) (s0 s : CacheSimulator)
    (ops : list op) :
  __init__ cs bs ways policy = Ok s0 ->
  exec s0 ops = Ok s ->
  num_sets s * associativity s * block_size s = cache_size s /\
  num_sets s * associativity s = num_blocks s /\
  Z.of_nat (length (concat (cache_array s))) = num_blocks s /\
  Z.of_nat (length (fifo_idx s)) = num_sets s.
Proof.
  intros Hinit Hexec.
  destruct (reached_wf _ _ _ _ _ _ _ Hinit Hexec) as [Hwf Hcfg].
  destruct (init_checks _ _ _ _ _ Hinit) as (Hcs & Hbs & Hw & Hnb & Hns & _).
  destruct Hcfg as (Hc1 & Hc2 & Hc3 & _ & Hc5 & Hc6).
  rewrite (init_inv _ _ _ _ _ Hinit) in Hc1, Hc2, Hc3, Hc5, Hc6.
  cbn in Hc1, Hc2, Hc3, Hc5, Hc6.
  pose proof (wf_shaped s Hwf) as [Hsets Hways _ Hrows Hcols Hcur _].
  rewrite (length_concat_rows _ _ Hcols), Hrows, Hcur.
  rewrite Hc1, Hc2, Hc3, Hc5, Hc6.
  repeat split; try nia.
Qed.

Lemma geometry_kept_witness :
  exists s0 s,
    __init__ 1024 16 2 "LRU" = Ok s0 /\
    exec s0 [Access 0xA3C4; Reinit; Access 0xB3C4] = Ok s /\
    num_sets s * associativity s * block_size s = cache_size s /\
    num_sets s * associativity s = num_blocks s /\
    Z.of_nat (length (concat (cache_array s))) = num_blocks s /\
    Z.of_nat (length (fifo_idx s)) = num_sets s.
Proof.
  eexists _, _.
  split; [vm_compute; reflexivity|].
  split; [vm_compute; reflexivity|].
  eapply (geometry_kept 1024 16 2 "LRU" _ _
            [Access 0xA3C4; Reinit; Access 0xB3C4]);
    [vm_compute; reflexivity|vm_compute; reflexivity].
Defined.

(** ** Operations never raise *)

(** X5: on a constructed cache every sequence of accesses and resets
    runs to completion, whatever the addresses (negative ones and ones
    beyond 32 bits included): no index is ever out of range, and every
    further access returns with a set index below [num_sets] and a way
    below [associativity]. *)
Theorem operations_never_raise
    (cs bs ways : Z) (policy : string) (s0 : CacheSimulator)
    (ops : list op) (a : Z) :
  __init__ cs bs ways policy = Ok s0 ->
  exists s o evs s',
    exec s0 ops = Ok s /\
    access_outcome s a = Ok o /\
    access_cache s a = Ok (hit o, evs, s') /\
    0 <= set_index o < num_sets s /\ 0 <= way o < associativity s.
Proof.
  intros Hinit.
  destruct (exec_wf ops s0 (init_wf _ _ _ _ _ Hinit)) as (s & Hex & Hwf & _).
  destruct (access_cache_step s a (wf_shaped s Hwf))
    as (o & row & line & Hf & Hout & Hacc).
  exists s, o. eexists _, _.
  split; [exact Hex|]. split; [exact Hout|]. split; [exact Hacc|].
  split; [exact (sf_set_range _ _ _ _ _ Hf)|exact (sf_way _ _ _ _ _ Hf)].
Qed.

Lemma operations_never_raise_witness :
  exists s0,
    __init__ 48 16 1 "fifo" = Ok s0 /\
    exists s o evs s',
      exec s0 [Access (-1); Reinit; Access (2 ^ 40)] = Ok s /\
      access_outcome s (-17) = Ok o /\
      access_cache s (-17) = Ok (hit o, evs, s') /\
      0 <= set_index o < num_sets s /\ 0 <= way o < associativity s.
Proof.
  eexists. split; [vm_compute; reflexivity|].
  apply (operations_never_raise 48 16 1 "fifo").
  vm_compute; reflexivity.
Defined.

(** ** What an access prints and returns *)

(** X6: in every reachable state, [access_cache] returns [True] exactly
    on a hit; it prints the hit line, or the miss line preceded by an
    eviction line exactly when a valid line is replaced; and it ends
    with the state of the selected set as it is after the access. *)
Theorem access_log_matches_outcome
    (cs bs ways : Z) (policy : string) (s0 s : CacheSimulator)
    (ops : list op) (a : Z) :
  __init__ cs bs ways policy = Ok s0 ->
  exec s0 ops = Ok s ->
  exists o row' s',
    access_outcome s a = Ok o /\
    access_cache s a =
      Ok (hit o,
          (if hit o then [LogHit a (set_index o) (way o)]
           else (match evicted o with
                 | Some _ => [LogEvict (way o) (set_index o)]
                 | None => []
                 end) ++ [LogMiss a (set_index o) (way o)])
          ++ [LogSetState (set_index o) row'],
          s') /\
    cache_array s' !! Z.to_nat (set_index o) = Some row'.
Proof.
  intros Hinit Hexec.
  destruct (reached_wf _ _ _ _ _ _ _ Hinit Hexec) as [Hwf _].
  destruct (access_cache_step s a (wf_shaped s Hwf))
    as (o & row & line & Hf & Hout & Hacc).
  exists o. eexists _, _.
  split; [exact Hout|]. split; [exact Hacc|].
  cbn. apply list_lookup_insert_eq.
  exact (lookup_lt_Some _ _ _ (sf_row _ _ _ _ _ Hf)).
Qed.

Lemma access_log_matches_outcome_witness :
  exists s0 s,
    __init__ 32 16 2 "LRU" = Ok s0 /\
    exec s0 [Access 0x00; Access 0x10] = Ok s /\
    exists o row' s',
      access_outcome s 0x20 = Ok o /\
      access_cache s 0x20 =
        Ok (hit o,
            (if hit o then [LogHit 0x20 (set_index o) (way o)]
             else (match evicted o with
                   | Some _ => [LogEvict (way o) (set_index o)]
                   | None => []
                   end) ++ [LogMiss 0x20 (set_index o) (way o)])
            ++ [LogSetState (set_index o) row'],
            s') /\
      cache_array s' !! Z.to_nat (set_index o) = Some row'.
Proof.
  eexists _, _.
  split; [vm_compute; reflexivity|].
  split; [vm_compute; reflexivity|].
  eapply (access_log_matches_outcome 32 16 2 "LRU" _ _
            [Access 0x00; Access 0x10]);
    [vm_compute; reflexivity|vm_compute; reflexivity].
Defined.

(** ** The access counter *)

(** X7: neither [init_cache] nor anything else resets the counters, so
    in every reachable state the access counter, the number of accesses
    recorded and the number of hit-rate samples are the same number. *)
Theorem counter_counts_accesses
    (cs bs ways : Z) (policy : string) (s0 s : CacheSimulator)
    (ops : list op) :
  __init__ cs bs ways policy = Ok s0 ->
  exec s0 ops = Ok s ->
  access_counter s = total_accesses (stats s) /\
  Z.of_nat (length (hit_rate_history (stats s))) = access_counter s.
Proof.
  intros Hinit Hexec.
  destruct (reached_wf _ _ _ _ _ _ _ Hinit Hexec) as [Hwf _].
  assert (Hc : access_counter s = total_accesses (stats s)).
  { revert Hinit Hexec.
    apply (reached_invariant
             (fun s => access_counter s = total_accesses (stats s))).
    - intros ? ? ? ? s1 H1. now rewrite (init_inv _ _ _ _ _ H1).
    - intros s1 a o row line _ IH _. cbn.
      destruct (hit o); cbn; [lia|]. destruct (valid line); cbn; lia.
    - intros s1 _ IH. exact IH. }
  split; [exact Hc|]. rewrite Hc. exact (stats_samples _ (wf_stats s Hwf)).
Qed.

Lemma counter_counts_accesses_witness :
  exists s0 s,
    __init__ 1024 16 2 "LRU" = Ok s0 /\
    exec s0 [Access 0xA3C4; Reinit; Access 0xA3C4; Access 0xA3C4] = Ok s /\
    access_counter s = total_accesses (stats s) /\
    Z.of_nat (length (hit_rate_history (stats s))) = access_counter s.
Proof.
  eexists _, _.
  split; [vm_compute; reflexivity|].
  split; [vm_compute; reflexivity|].
  eapply (counter_counts_accesses 1024 16 2 "LRU" _ _
            [Access 0xA3C4; Reinit; Access 0xA3C4; Access 0xA3C4]);
    [vm_compute; reflexivity|vm_compute; reflexivity].
Defined.

(** ** What an access leaves alone *)

(** X8: an access touches one line: the rows and the cursors of the
    other sets, and the other lines of the selected set, are what they
    were; the configuration is unchanged and the counter has advanced
    by one.  On a hit the line keeps its valid bit and its tag and no
    cursor moves. *)
Theorem access_frame
    (cs bs ways : Z) (policy : string) (s0 s : CacheSimulator)
    (ops : list op) (a : Z) :
  __init__ cs bs ways policy = Ok s0 ->
  exec s0 ops = Ok s ->
  exists o evs s' row row',
    access_outcome s a = Ok o /\
    access_cache s a = Ok (hit o, evs, s') /\
    cache_array s !! Z.to_nat (set_index o) = Some row /\
    cache_array s' !! Z.to_nat (set_index o) = Some row' /\
    (forall k : nat, k <> Z.to_nat (set_index o) ->
       cache_array s' !! k = cache_array s !! k /\
       fifo_idx s' !! k = fifo_idx s !! k) /\
    (forall w : nat, w <> Z.to_nat (way o) -> row' !! w = row !! w) /\
    same_config s s' /\
    access_counter s' = access_counter s + 1 /\
    (hit o = true ->
     fifo_idx s' = fifo_idx s /\
     exists l l', row !! Z.to_nat (way o) = Some l /\
                  row' !! Z.to_nat (way o) = Some l' /\
                  valid l' = valid l /\ tag l' = tag l).
Proof.
  intros Hinit Hexec.
  destruct (reached_wf _ _ _ _ _ _ _ Hinit Hexec) as [Hwf _].
  destruct (access_cache_step s a (wf_shaped s Hwf))
    as (o & row & line & Hf & Hout & Hacc).
  pose proof (sf_row _ _ _ _ _ Hf) as Hrow.
  pose proof (sf_line _ _ _ _ _ Hf) as Hline.
  exists o. eexists _, _, row, _.
  split; [exact Hout|]. split; [exact Hacc|]. split; [exact Hrow|].
  split.
  { cbn. apply list_lookup_insert_eq. exact (lookup_lt_Some _ _ _ Hrow). }
  split.
  { intros k Hk. cbn. split.
    - now apply list_lookup_insert_ne.
    - destruct (hit o); [reflexivity|].
      destruct (String.eqb _ _); [|reflexivity].
      now apply list_lookup_insert_ne. }
  split.
  { intros w Hw. unfold row_after. now apply list_lookup_insert_ne. }
  split; [apply after_access_config|]. split; [reflexivity|].
  intros Hh. cbn. rewrite Hh. split; [reflexivity|].
  exists line. eexists. split; [exact Hline|]. split.
  { unfold row_after. rewrite Hh. apply list_lookup_insert_eq.
    exact (lookup_lt_Some _ _ _ Hline). }
  split; reflexivity.
Qed.

Lemma access_frame_witness :
  exists s0 s,
    __init__ 64 16 2 "FIFO" = Ok s0 /\
    exec s0 [Access 0x00; Access 0x10; Access 0x20] = Ok s /\
    exists o evs s' row row',
      access_outcome s 0x40 = Ok o /\
      access_cache s 0x40 = Ok (hit o, evs, s') /\
      cache_array s !! Z.to_nat (set_index o) = Some row /\
      cache_array s' !! Z.to_nat (set_index o) = Some row' /\
      (forall k : nat, k <> Z.to_nat (set_index o) ->
         cache_array s' !! k = cache_array s !! k /\
         fifo_idx s' !! k = fifo_idx s !! k) /\
      (forall w : nat, w <> Z.to_nat (way o) -> row' !! w = row !! w) /\
      same_config s s' /\
      access_counter s' = access_counter s + 1 /\
      (hit o = true ->
       fifo_idx s' = fifo_idx s /\
       exists l l', row !! Z.to_nat (way o) = Some l /\
                    row' !! Z.to_nat (way o) = Some l' /\
                    valid l' = valid l /\ tag l' = tag l).
Proof.
  eexists _, _.
  split; [vm_compute; reflexivity|].
  split; [vm_compute; reflexivity|].
  eapply (access_frame 64 16 2 "FIFO" _ _
            [Access 0x00; Access 0x10; Access 0x20]);
    [vm_compute; reflexivity|vm_compute; reflexivity].
Defined.

(** ** [init_cache] *)

(** X9: a freshly constructed cache is already in its reset state:
    the call of [init_cache] that [main] makes before the trace prints
    its line and changes nothing. *)
Theorem init_cache_after_construction
    (cs bs ways : Z) (policy : string) (s0 : CacheSimulator) :
  __init__ cs bs ways policy = Ok s0 ->
  init_cache s0 =
    Ok ([LogInit (cs / bs / ways) ways (upper policy)], s0).
Proof.
  intros Hinit.
  rewrite (init_cache_shaped s0 (wf_shaped s0 (init_wf _ _ _ _ _ Hinit))).
  rewrite (init_inv _ _ _ _ _ Hinit). reflexivity.
Qed.

Lemma init_cache_after_construction_witness :
  exists s0,
    __init__ 1024 16 2 "lru" = Ok s0 /\
    init_cache s0 = Ok ([LogInit (1024 / 16 / 2) 2 (upper "lru")], s0).
Proof.
  eexists. split; [vm_compute; reflexivity|].
  apply (init_cache_after_construction 1024 16 2 "lru").
  vm_compute; reflexivity.
Defined.

(** X10: [init_cache] is idempotent: in every reachable state, a second
    call in a row prints the same line and returns the state that the
    first call returned. *)
Theorem init_cache_idempotent
    (cs bs ways : Z) (policy : string) (s0 s : CacheSimulator)
    (ops : list op) :
  __init__ cs bs ways policy = Ok s0 ->
  exec s0 ops = Ok s ->
  exists evs s1,
    init_cache s = Ok (evs, s1) /\ init_cache s1 = Ok (evs, s1).
Proof.
  intros Hinit Hexec.
  destruct (reached_wf _ _ _ _ _ _ _ Hinit Hexec) as [Hwf _].
  eexists _, _.
  split; [exact (init_cache_shaped s (wf_shaped s Hwf))|].
  exact (init_cache_shaped _ (wf_shaped _ (reset_state_wf s Hwf))).
Qed.

Lemma init_cache_idempotent_witness :
  exists s0 s,
    __init__ 64 16 2 "FIFO" = Ok s0 /\
    exec s0 [Access 0x00; Access 0x20; Access 0x40] = Ok s /\
    exists evs s1,
      init_cache s = Ok (evs, s1) /\ init_cache s1 = Ok (evs, s1).
Proof.
  eexists _, _.
  split; [vm_compute; reflexivity|].
  split; [vm_compute; reflexivity|].
  eapply (init_cache_idempotent 64 16 2 "FIFO" _ _
            [Access 0x00; Access 0x20; Access 0x40]);
    [vm_compute; reflexivity|vm_compute; reflexivity].
Defined.

(** ** Cold misses *)




(** ** A block is resident at most once *)

Lemma distinct_tags_blank (n : nat) :
  distinct_tags (replicate n new_CacheLine).
Proof.
  intros i j l1 l2 H1 _ Hv. apply lookup_replicate in H1 as [-> _].
  discriminate.
Qed.

Lemma distinct_tags_touch (row : list CacheLine) (w : nat)
    (line x : CacheLine) :
  distinct_tags row -> row !! w = Some line ->
  valid x = valid line -> tag x = tag line ->
  distinct_tags (<[w := x]> row).
Proof.
  intros Hd Hline Hv Ht i j l1 l2 H1 H2 Hv1 Hv2 Htag.
  apply list_lookup_insert_Some in H1 as [(-> & -> & _)|(Hi & H1)];
    apply list_lookup_insert_Some in H2 as [(-> & -> & _)|(Hj & H2)];
    try reflexivity.
  - apply (Hd _ _ line l2); auto; congruence.
  - apply (Hd _ _ l1 line); auto; congruence.
  - apply (Hd _ _ l1 l2); auto.
Qed.

Lemma distinct_tags_fill (row : list CacheLine) (w : nat) (x : CacheLine) :
  distinct_tags row ->
  (forall i l, row !! i = Some l -> valid l && (tag l =? tag x) = false) ->
  distinct_tags (<[w := x]> row).
Proof.
  intros Hd Hfresh i j l1 l2 H1 H2 Hv1 Hv2 Htag.
  apply list_lookup_insert_Some in H1 as [(-> & -> & _)|(Hi & H1)];
    apply list_lookup_insert_Some in H2 as [(-> & -> & _)|(Hj & H2)];
    try reflexivity.
  - specialize (Hfresh _ _ H2). rewrite Hv2, <- Htag, Z.eqb_refl in Hfresh.
    discriminate.
  - specialize (Hfresh _ _ H1). rewrite Hv1, Htag, Z.eqb_refl in Hfresh.
    discriminate.
  - apply (Hd _ _ l1 l2); auto.
Qed.

Lemma row_after_distinct (s : CacheSimulator) (a : Z) (o : Outcome)
    (row : list CacheLine) (line : CacheLine) :
  shaped s -> step_facts s a o row line -> distinct_tags row ->
  distinct_tags (row_after s a o row line).
Proof.
  intros Hs Hf Hd. unfold row_after.
  destruct (hit o) eqn:Hh.
  - apply (distinct_tags_touch _ _ line); auto.
    exact (sf_line _ _ _ _ _ Hf).
  - apply distinct_tags_fill; [exact Hd|].
    intros i l Hl. destruct (sf_miss _ _ _ _ _ Hf Hh) as [_ Hno].
    apply (Hno (Z.of_nat i)); [|now rewrite Nat2Z.id].
    apply lookup_lt_Some in Hl. rewrite (sf_row_len _ _ _ _ _ Hf) in Hl.
    pose proof (shaped_ways s Hs). lia.
Qed.

Lemma reached_distinct
    (cs bs ways : Z) (policy : string) (s0 s : CacheSimulator)
    (ops : list op) :
  __init__ cs bs ways policy = Ok s0 ->
  exec s0 ops = Ok s ->
  Forall distinct_tags (cache_array s).
Proof.
  apply (reached_invariant (fun s => Forall distinct_tags (cache_array s))).
  - intros ? ? ? ? s1 H1. rewrite (init_inv _ _ _ _ _ H1). cbn.
    apply Forall_replicate, distinct_tags_blank.
  - intros s1 a o r line Hwf IH Hf. cbn.
    apply Forall_insert; [exact IH|].
    apply row_after_distinct; [exact (wf_shaped _ Hwf)|exact Hf|].
    exact (Forall_lookup_1 _ _ _ _ IH (sf_row _ _ _ _ _ Hf)).
  - intros s1 _ _. cbn. apply Forall_replicate, distinct_tags_blank.
Qed.

(** X12: in every reachable state, no set holds the same tag in two
    valid lines: a block is resident in at most one way. *)
Theorem resident_tags_distinct
    (cs bs ways : Z) (policy : string) (s0 s : CacheSimulator)
    (ops : list op) :
  __init__ cs bs ways policy = Ok s0 ->
  exec s0 ops = Ok s ->
  forall (k i j : nat) (row : list CacheLine) (l1 l2 : CacheLine),
    cache_array s !! k = Some row ->
    row !! i = Some l1 -> row !! j = Some l2 ->
    valid l1 = true -> valid l2 = true -> tag l1 = tag l2 -> i = j.
Proof.
  intros Hinit Hexec k i j row l1 l2 Hrow.
  pose proof (reached_distinct _ _ _ _ _ _ _ Hinit Hexec) as HP.
  exact (Forall_lookup_1 _ _ _ _ HP Hrow i j l1 l2).
Qed.

Lemma resident_tags_distinct_witness :
  exists s0 s,
    __init__ 64 16 2 "LRU" = Ok s0 /\
    exec s0 [Access 0x00; Access 0x20; Access 0x00; Access 0x40] = Ok s /\
    forall (k i j : nat) (row : list CacheLine) (l1 l2 : CacheLine),
      cache_array s !! k = Some row ->
      row !! i = Some l1 -> row !! j = Some l2 ->
      valid l1 = true -> valid l2 = true -> tag l1 = tag l2 -> i = j.
Proof.
  eexists _, _.
  split; [vm_compute; reflexivity|].
  split; [vm_compute; reflexivity|].
  eapply (resident_tags_distinct 64 16 2 "LRU" _ _
            [Access 0x00; Access 0x20; Access 0x00; Access 0x40]);
    [vm_compute; reflexivity|vm_compute; reflexivity].
Defined.

(** ** Accessing a block again *)

Lemma same_block_same_place (s s' : CacheSimulator) (a b : Z) :
  0 < num_sets s -> num_sets s' = num_sets s ->
  Z.shiftr b 4 = Z.shiftr a 4 ->
  set_index_of s' b = set_index_of s a /\
  tag_value_of s' b = tag_value_of s a.
Proof.
  intros Hn Hsets Hblock. unfold set_index_of, tag_value_of.
  rewrite Hsets, Hblock. split; [reflexivity|].
  assert (0 <= bit_length (num_sets s) - 1).
  { rewrite bit_length_log2 by exact Hn. apply Z.log2_nonneg. }
  rewrite <- (Z.shiftr_shiftr b 4), <- (Z.shiftr_shiftr a 4) by assumption.
  now rewrite Hblock.
Qed.

(** The line that an access leaves in the way it used. *)
Lemma row_after_line (s : CacheSimulator) (a : Z) (o : Outcome)
    (row : list CacheLine) (line : CacheLine) :
  step_facts s a o row line ->
  exists x,
    row_after s a o row line !! Z.to_nat (way o) = Some x /\
    valid x = true /\ tag x = tag_value_of s a /\
    last_used x = access_counter s + 1.
Proof.
  intros Hf. unfold row_after.
  eexists. split.
  { apply list_lookup_insert_eq.
    exact (lookup_lt_Some _ _ _ (sf_line _ _ _ _ _ Hf)). }
  destruct (hit o) eqn:Hh; [|repeat split].
  destruct (sf_hit _ _ _ _ _ Hf Hh) as (Hv & Ht & _).
  repeat split; assumption.
Qed.

(** The row that the next access finds when it selects the same set. *)
Lemma next_row_same_set (s : CacheSimulator) (a b : Z) (o o2 : Outcome)
    (row row2 : list CacheLine) (line line2 : CacheLine) :
  step_facts s a o row line ->
  step_facts (after_access s a o row line) b o2 row2 line2 ->
  set_index o2 = set_index o ->
  row2 = row_after s a o row line.
Proof.
  intros Hf Hf2 Hset.
  pose proof (sf_row _ _ _ _ _ Hf2) as Hrow2.
  rewrite Hset in Hrow2.
  unfold after_access in Hrow2. cbn [cache_array] in Hrow2.
  rewrite list_lookup_insert_eq in Hrow2
    by exact (lookup_lt_Some _ _ _ (sf_row _ _ _ _ _ Hf)).
  now injection Hrow2.
Qed.

(** X13: in every reachable state, once an address has been accessed
    (hit or miss), the next access to any address of the same 16-byte
    block ([b >> 4 = a >> 4]) hits, in the set and the way of the first
    access. *)
Theorem same_block_hits_next
    (cs bs ways : Z) (policy : string) (s0 s : CacheSimulator)
    (ops : list op) (a b : Z) :
  __init__ cs bs ways policy = Ok s0 ->
  exec s0 ops = Ok s ->
  Z.shiftr b 4 = Z.shiftr a 4 ->
  exists o evs s',
    access_outcome s a = Ok o /\
    access_cache s a = Ok (hit o, evs, s') /\
    access_outcome s' b =
      Ok {| hit := true; set_index := set_index o; way := way o;
            evicted := None |}.
Proof.
  intros Hinit Hexec Hblock.
  destruct (reached_wf _ _ _ _ _ _ _ Hinit Hexec) as [Hwf _].
  pose proof (wf_shaped s Hwf) as Hs.
  pose proof (reached_distinct _ _ _ _ _ _ _ Hinit Hexec) as Hdist.
  destruct (access_cache_step s a Hs) as (o & row & line & Hf & Hout & Hacc).
  exists o. eexists _, _. split; [exact Hout|]. split; [exact Hacc|].
  pose proof (after_access_shaped s a o row line Hs Hf) as Hs'.
  destruct (access_cache_step _ b Hs')
    as (o2 & row2 & line2 & Hf2 & Hout2 & _).
  rewrite Hout2. f_equal.
  destruct (same_block_same_place s (after_access s a o row line) a b
              (shaped_sets s Hs) eq_refl Hblock) as [Hset Htag].
  assert (Hset2 : set_index o2 = set_index o).
  { rewrite (sf_set _ _ _ _ _ Hf2), Hset. symmetry.
    exact (sf_set _ _ _ _ _ Hf). }
  pose proof (next_row_same_set _ _ _ _ _ _ _ _ _ Hf Hf2 Hset2) as ->.
  destruct (row_after_line _ _ _ _ _ Hf) as (x & Hx & Hxv & Hxt & _).
  pose proof (row_after_distinct s a o row line Hs Hf
                (Forall_lookup_1 _ _ _ _ Hdist (sf_row _ _ _ _ _ Hf)))
    as Hd.
  destruct (hit o2) eqn:Hh2.
  - destruct (sf_hit _ _ _ _ _ Hf2 Hh2) as (Hv2 & Ht2 & Hev2).
    assert (Hway : Z.to_nat (way o2) = Z.to_nat (way o)).
    { apply (Hd _ _ line2 x); auto.
      - exact (sf_line _ _ _ _ _ Hf2).
      - rewrite Ht2, Hxt. exact Htag. }
    pose proof (sf_way _ _ _ _ _ Hf2) as Hw2.
    pose proof (sf_way _ _ _ _ _ Hf) as Hw.
    assert (Hweq : way o2 = way o) by lia.
    destruct o2 as [h2 si2 w2 ev2]. cbn in Hh2, Hset2, Hweq, Hev2.
    now subst.
  - destruct (sf_miss _ _ _ _ _ Hf2 Hh2) as [_ Hno].
    specialize (Hno (way o) x (sf_way _ _ _ _ _ Hf) Hx).
    rewrite Hxv, Hxt, Htag, Z.eqb_refl in Hno. discriminate.
Qed.

Lemma same_block_hits_next_witness :
  exists s0 s,
    __init__ 64 16 2 "FIFO" = Ok s0 /\
    exec s0 [Access 0x00; Access 0x20] = Ok s /\
    Z.shiftr 0x4F 4 = Z.shiftr 0x40 4 /\
    exists o evs s',
      access_outcome s 0x40 = Ok o /\
      access_cache s 0x40 = Ok (hit o, evs, s') /\
      access_outcome s' 0x4F =
        Ok {| hit := true; set_index := set_index o; way := way o;
              evicted := None |}.
Proof.
  eexists _, _.
  split; [vm_compute; reflexivity|].
  split; [vm_compute; reflexivity|].
  split; [reflexivity|].
  eapply (same_block_hits_next 64 16 2 "FIFO" _ _ [Access 0x00; Access 0x20]);
    [vm_compute; reflexivity|vm_compute; reflexivity|reflexivity].
Defined.

(** ** The most recently used line *)

Lemma stamp_bound (s : CacheSimulator) (k : nat) (row : list CacheLine)
    (w : Z) :
  wf s -> cache_array s !! k = Some row ->
  0 <= stamp row w <= access_counter s.
Proof.
  intros Hwf Hrow. unfold stamp.
  pose proof (wf_counter s Hwf).
  destruct (row !! Z.to_nat w) as [l|] eqn:Hl; [|lia].
  pose proof (Forall_lookup_1 _ _ _ _
                (Forall_lookup_1 _ _ _ _ (wf_lines s Hwf) Hrow) Hl) as Hok.
  unfold line_ok in Hok. destruct (valid l); lia.
Qed.

(** X14: under LRU with at least two ways, in every reachable state,
    the line that an access has just used (found on a hit, filled on a
    miss) is not the one replaced if the next access misses in the same
    set. *)
Theorem lru_spares_most_recent
    (cs bs ways : Z) (policy : string) (s0 s : CacheSimulator)
    (ops : list op) (a b : Z) :
  __init__ cs bs ways policy = Ok s0 ->
  exec s0 ops = Ok s ->
  replacement_policy s = "LRU" ->
  2 <= associativity s ->
  exists o evs s' o2,
    access_outcome s a = Ok o /\
    access_cache s a = Ok (hit o, evs, s') /\
    access_outcome s' b = Ok o2 /\
    (hit o2 = false -> set_index o2 = set_index o -> way o2 <> way o).
Proof.
  intros Hinit Hexec Hlru Hways.
  destruct (reached_wf _ _ _ _ _ _ _ Hinit Hexec) as [Hwf _].
  pose proof (wf_shaped s Hwf) as Hs.
  destruct (access_cache_step s a Hs) as (o & row & line & Hf & Hout & Hacc).
  pose proof (after_access_shaped s a o row line Hs Hf) as Hs'.
  destruct (access_cache_step _ b Hs')
    as (o2 & row2 & line2 & Hf2 & Hout2 & _).
  exists o. eexists _, _, o2.
  split; [exact Hout|]. split; [exact Hacc|]. split; [exact Hout2|].
  intros Hmiss Hset Heq.
  pose proof (next_row_same_set _ _ _ _ _ _ _ _ _ Hf Hf2 Hset) as ->.
  destruct (sf_lru _ _ _ _ _ Hf2 Hmiss Hlru) as [_ Hmin].
  destruct (row_after_line _ _ _ _ _ Hf) as (x & Hx & _ & _ & Hxu).
  pose proof (sf_way _ _ _ _ _ Hf) as Hw.
  (* another way of the set *)
  set (w := if way o =? 0 then 1 else 0).
  assert (Hwr : 0 <= w < associativity s /\ w <> way o).
  { subst w. destruct (Z.eqb_spec (way o) 0); lia. }
  destruct (Hmin w) as [Hle _]; [exact (proj1 Hwr)|].
  rewrite Heq in Hle. unfold stamp at 1 in Hle. rewrite Hx, Hxu in Hle.
  assert (Hsame : stamp (row_after s a o row line) w = stamp row w).
  { unfold stamp, row_after. rewrite list_lookup_insert_ne; [reflexivity|].
    lia. }
  rewrite Hsame in Hle.
  pose proof (stamp_bound s _ row w Hwf (sf_row _ _ _ _ _ Hf)). lia.
Qed.

Lemma lru_spares_most_recent_witness :
  exists s0 s,
    __init__ 64 16 2 "LRU" = Ok s0 /\
    exec s0 [Access 0x00; Access 0x20] = Ok s /\
    replacement_policy s = "LRU" /\
    2 <= associativity s /\
    exists o evs s' o2,
      access_outcome s 0x00 = Ok o /\
      access_cache s 0x00 = Ok (hit o, evs, s') /\
      access_outcome s' 0x40 = Ok o2 /\
      (hit o2 = false -> set_index o2 = set_index o -> way o2 <> way o).
Proof.
  eexists _, _.
  split; [vm_compute; reflexivity|].
  split; [vm_compute; reflexivity|].
  split; [reflexivity|].
  split; [vm_compute; discriminate|].
  eapply (lru_spares_most_recent 64 16 2 "LRU" _ _ [Access 0x00; Access 0x20]);
    [vm_compute; reflexivity|vm_compute; reflexivity|reflexivity
    |vm_compute; discriminate].
Defined.

(** ** Evictions and full sets *)








(** ** Occupancy *)

Lemma valid_lines_insert (row : list CacheLine) :
  forall (w : nat) (old x : CacheLine),
    row !! w = Some old ->
    Z.of_nat (valid_lines (<[w := x]> row)) + Z.b2z (valid old) =
    Z.of_nat (valid_lines row) + Z.b2z (valid x).
Proof.
  unfold valid_lines.
  induction row as [|l row IH]; intros w old x Hw; [discriminate|].
  destruct w as [|w]; cbn [lookup list_lookup] in Hw.
  - injection Hw as ->.
    change (<[0%nat := x]> (old :: row)) with (x :: row).
    cbn [List.filter].
    destruct (valid old), (valid x); cbn [length Z.b2z]; lia.
  - specialize (IH w old x Hw).
    change (<[S w := x]> (l :: row)) with (l :: <[w := x]> row).
    cbn [List.filter].
    destruct (valid l); cbn [length]; lia.
Qed.

Lemma total_valid_insert (arr : list (list CacheLine)) :
  forall (k : nat) (row row' : list CacheLine),
    arr !! k = Some row ->
    total_valid (<[k := row']> arr) + Z.of_nat (valid_lines row) =
    total_valid arr + Z.of_nat (valid_lines row').
Proof.
  induction arr as [|r arr IH]; intros k row row' Hk; [discriminate|].
  destruct k as [|k]; cbn [lookup list_lookup] in Hk.
  - injection Hk as ->.
    change (<[0%nat := row']> (row :: arr)) with (row' :: arr).
    cbn [total_valid]. lia.
  - specialize (IH k row row' Hk).
    change (<[S k := row']> (r :: arr)) with (r :: <[k := row']> arr).
    cbn [total_valid]. lia.
Qed.

Lemma total_valid_blank (m n : nat) :
  total_valid (replicate m (replicate n new_CacheLine)) = 0.
Proof.
  assert (Hrow : valid_lines (replicate n new_CacheLine) = 0%nat).
  { unfold valid_lines. induction n as [|n IH]; cbn; auto. }
  induction m as [|m IH]; cbn [replicate total_valid]; [reflexivity|].
  rewrite Hrow, IH. reflexivity.
Qed.

Lemma after_access_occupancy (s : CacheSimulator) (a : Z) (o : Outcome)
    (row : list CacheLine) (line : CacheLine) :
  step_facts s a o row line ->
  let s' := after_access s a o row line in
  total_valid (cache_array s') - (misses (stats s') - evictions (stats s')) =
  total_valid (cache_array s) - (misses (stats s) - evictions (stats s)).
Proof.
  intros Hf. cbn.
  pose proof (total_valid_insert _ _ _ (row_after s a o row line)
                (sf_row _ _ _ _ _ Hf)) as Harr.
  pose proof (valid_lines_insert row _ _
                (if hit o then set_last_used (access_counter s + 1) line
                 else filled (tag_value_of s a) (access_counter s + 1))
                (sf_line _ _ _ _ _ Hf)) as Hrow.
  fold (row_after s a o row line) in Hrow.
  destruct (hit o) eqn:Hh; cbn in Hrow |- *.
  - destruct (sf_hit _ _ _ _ _ Hf Hh) as (Hv & _). rewrite Hv in Hrow.
    cbn in Hrow. lia.
  - destruct (valid line); cbn in Hrow |- *; lia.
Qed.

Lemma run_occupancy (trace : list Z) :
  forall s hs evs s',
    shaped s -> run s trace = Ok (hs, evs, s') ->
    total_valid (cache_array s') - (misses (stats s') - evictions (stats s')) =
    total_valid (cache_array s) - (misses (stats s) - evictions (stats s)).
Proof.
  induction trace as [|a trace IH]; intros s hs evs s' Hs Hrun;
    cbn [run] in Hrun.
  - now injection Hrun as <- <- <-.
  - destruct (access_cache_step s a Hs) as (o & row & line & Hf & _ & Hacc).
    rewrite Hacc in Hrun. cbn [bind] in Hrun.
    destruct (run (after_access s a o row line) trace)
      as [[[hs1 evs1] s1]|] eqn:Hrun1; [|discriminate].
    cbn [bind] in Hrun. injection Hrun as <- <- <-.
    rewrite (IH _ _ _ _ (after_access_shaped s a o row line Hs Hf) Hrun1).
    exact (after_access_occupancy s a o row line Hf).
Qed.

(** X16: after any trace fed to a freshly constructed cache, the number
    of valid lines in the whole cache is [misses - evictions], and it
    is at most [num_sets * associativity]. *)
Theorem occupancy_is_misses_minus_evictions
    (cs bs ways : Z) (policy : string) (s0 : CacheSimulator)
    (trace : list Z) :
  __init__ cs bs ways policy = Ok s0 ->
  exists hs evs s,
    run s0 trace = Ok (hs, evs, s) /\
    total_valid (cache_array s) = misses (stats s) - evictions (stats s) /\
    total_valid (cache_array s) <= num_sets s * associativity s.
Proof.
  intros Hinit.
  pose proof (init_wf _ _ _ _ _ Hinit) as Hwf0.
  destruct (run_wf trace s0 Hwf0) as (hs & evs & s & Hrun & Hwf & _).
  exists hs, evs, s. split; [exact Hrun|].
  pose proof (run_occupancy trace _ _ _ _ (wf_shaped s0 Hwf0) Hrun) as Hocc.
  assert (H0 : total_valid (cache_array s0)
               - (misses (stats s0) - evictions (stats s0)) = 0).
  { rewrite (init_inv _ _ _ _ _ Hinit). cbn.
    now rewrite total_valid_blank. }
  split; [lia|].
  pose proof (wf_shaped s Hwf) as [Hsets Hways _ Hrows Hcols _ _].
  assert (Hbound : forall arr : list (list CacheLine),
             Forall (fun row => length row = Z.to_nat (associativity s)) arr ->
             total_valid arr <= Z.of_nat (length arr) * associativity s).
  { induction 1 as [|row arr Hrow _ IH]; cbn [total_valid length]; [lia|].
    pose proof (valid_lines_le_length row). lia. }
  specialize (Hbound _ Hcols). rewrite Hrows in Hbound. lia.
Qed.

Lemma occupancy_is_misses_minus_evictions_witness :
  exists s0,
    __init__ 1024 16 2 "FIFO" = Ok s0 /\
    exists hs evs s,
      run s0 default_trace = Ok (hs, evs, s) /\
      total_valid (cache_array s) = misses (stats s) - evictions (stats s) /\
      total_valid (cache_array s) <= num_sets s * associativity s.
Proof.
  eexists. split; [vm_compute; reflexivity|].
  apply (occupancy_is_misses_minus_evictions 1024 16 2 "FIFO").
  vm_compute; reflexivity.
Defined.

(** ** The summary *)

Lemma reached_last_sample
    (cs bs ways : Z) (policy : string) (s0 s : CacheSimulator)
    (ops : list op) :
  __init__ cs bs ways policy = Ok s0 ->
  exec s0 ops = Ok s ->
  0 < total_accesses (stats s) ->
  last (hit_rate_history (stats s)) =
    Some (rate (hits (stats s)) (total_accesses (stats s))).
Proof.
  apply (reached_invariant
           (fun s => 0 < total_accesses (stats s) ->
                     last (hit_rate_history (stats s)) =
                       Some (rate (hits (stats s))
                                  (total_accesses (stats s))))).
  - intros ? ? ? ? s1 H1. rewrite (init_inv _ _ _ _ _ H1). cbn. lia.
  - intros s1 a o row line _ _ _ _. cbn.
    destruct (hit o); cbn; [now rewrite last_snoc|].
    destruct (valid line); cbn; now rewrite last_snoc.
  - intros s1 _ IH. exact IH.
Qed.

(** X17: in every reachable state the summary reports the four counters
    and two rates.  Before the first access both rates are the integer
    0; afterwards the hit rate is the float [(hits / total_accesses) *
    100] and the miss rate the float [(misses / total_accesses) * 100],
    each has a value between 0 and 100, and the hit rate is the last
    sample of the hit-rate history. *)
Theorem summary_rates
    (cs bs ways : Z) (policy : string) (s0 s : CacheSimulator)
    (ops : list op) :
  __init__ cs bs ways policy = Ok s0 ->
  exec s0 ops = Ok s ->
  exists hr mr,
    print_summary (stats s) =
      [SummaryHeader;
       SummaryTotal (total_accesses (stats s));
       SummaryHits (hits (stats s));
       SummaryMisses (misses (stats s));
       SummaryEvictions (evictions (stats s));
       SummaryHitRate hr; SummaryMissRate mr] /\
    (total_accesses (stats s) = 0 -> hr = PyInt 0 /\ mr = PyInt 0) /\
    (0 < total_accesses (stats s) ->
     hr = PyFloat (float_mul (truediv (hits (stats s)) (total_accesses (stats s)))
                             (float_of_int 100)) /\
     mr = PyFloat (float_mul (truediv (misses (stats s)) (total_accesses (stats s)))
                             (float_of_int 100)) /\
     in_percent hr /\ in_percent mr /\
     last (hit_rate_history (stats s)) = Some hr).
Proof.
  intros Hinit Hexec.
  destruct (reached_wf _ _ _ _ _ _ _ Hinit Hexec) as [Hwf _].
  destruct (wf_stats s Hwf) as [Hh Ht He _ _].
  eexists _, _. split; [reflexivity|]. split.
  - intros H0. unfold rate. rewrite H0. split; reflexivity.
  - intros Hpos.
    split; [unfold rate; destruct (Z.ltb_spec 0 (total_accesses (stats s)));
            [reflexivity|lia]|].
    split; [unfold rate; destruct (Z.ltb_spec 0 (total_accesses (stats s)));
            [reflexivity|lia]|].
    split; [apply rate_in_percent; lia|].
    split; [apply rate_in_percent; lia|].
    exact (reached_last_sample _ _ _ _ _ _ _ Hinit Hexec Hpos).
Qed.

Lemma summary_rates_witness :
  exists s0 s,
    __init__ 64 16 2 "FIFO" = Ok s0 /\
    exec s0 [Access 0x00; Access 0x00; Access 0x20] = Ok s /\
    exists hr mr,
      print_summary (stats s) =
        [SummaryHeader;
         SummaryTotal (total_accesses (stats s));
         SummaryHits (hits (stats s));
         SummaryMisses (misses (stats s));
         SummaryEvictions (evictions (stats s));
         SummaryHitRate hr; SummaryMissRate mr] /\
      (total_accesses (stats s) = 0 -> hr = PyInt 0 /\ mr = PyInt 0) /\
      (0 < total_accesses (stats s) ->
       hr = PyFloat (float_mul (truediv (hits (stats s)) (total_accesses (stats s)))
                               (float_of_int 100)) /\
       mr = PyFloat (float_mul (truediv (misses (stats s)) (total_accesses (stats s)))
                               (float_of_int 100)) /\
       in_percent hr /\ in_percent mr /\
       last (hit_rate_history (stats s)) = Some hr).
Proof.
  eexists _, _.
  split; [vm_compute; reflexivity|].
  split; [vm_compute; reflexivity|].
  eapply (summary_rates 64 16 2 "FIFO" _ _
            [Access 0x00; Access 0x00; Access 0x20]);
    [vm_compute; reflexivity|vm_compute; reflexivity].
Defined.


(** ** Reading a trace *)

(** The parser and the format on a few texts, as Python evaluates
    them. *)
Example int16_examples :
  int16 (list_ascii_of_string "0x1f") = Some 31 /\
  int16 (list_ascii_of_string " FF ") = Some 255 /\
  int16 (list_ascii_of_string "-0X_1_0") = Some (-16) /\
  int16 (list_ascii_of_string "0b1") = Some 177 /\
  int16 (list_ascii_of_string "0x") = None /\
  int16 (list_ascii_of_string "1__0") = None /\
  int16 (list_ascii_of_string "_10") = None /\
  int16 (list_ascii_of_string "10_") = None /\
  int16 (list_ascii_of_string "12 34") = None /\
  int16 (list_ascii_of_string "+ 1") = None /\
  int16 (list_ascii_of_string "g") = None /\
  int16 (list_ascii_of_string "") = None.
Proof. repeat split. Qed.

Example format_08x_examples :
  string_of_list_ascii (format_08x 0xA3C4) = "0000a3c4" /\
  string_of_list_ascii (format_08x 0) = "00000000" /\
  string_of_list_ascii (format_08x (-1)) = "-0000001" /\
  string_of_list_ascii (format_08x 0x123456789) = "123456789".
Proof. repeat split. Qed.

Lemma read_lines_acc (lines : list string) :
  forall acc,
    read_lines lines acc =
      match read_lines lines [] with
      | TraceOk t => TraceOk (acc ++ t)
      | TraceExit l => TraceExit l
      end.
Proof.
  induction lines as [|line lines IH]; intros acc; cbn [read_lines].
  - now rewrite app_nil_r.
  - destruct (skipped _); [apply IH|].
    destruct (int16 _) as [a|]; [|reflexivity].
    destruct ((a <? 0) || (4294967295 <? a)); [reflexivity|].
    rewrite (IH (acc ++ [a])), (IH ([] ++ [a])).
    destruct (read_lines lines []); [|reflexivity].
    now rewrite <- app_assoc.
Qed.

Lemma read_lines_cons (line : string) (lines : list string) :
  read_lines (line :: lines) [] =
    let cs := strip (list_ascii_of_string line) in
    if skipped cs then read_lines lines []
    else
      match int16 cs with
      | Some a =>
          if (a <? 0) || (0xFFFFFFFF <? a) then TraceExit cs
          else match read_lines lines [] with
               | TraceOk t => TraceOk (a :: t)
               | TraceExit l => TraceExit l
               end
      | None => TraceExit cs
      end.
Proof.
  cbn [read_lines]. cbv zeta.
  destruct (skipped _); [reflexivity|].
  destruct (int16 _) as [a|]; [|reflexivity].
  destruct ((a <? 0) || (4294967295 <? a)); [reflexivity|].
  now rewrite read_lines_acc.
Qed.

(** X18: when [read_trace_file] returns, the trace holds, in order, the
    address of every line that is neither empty nor a comment once
    stripped: each parses as a hexadecimal number and lies between 0
    and 0xFFFFFFFF. *)
Theorem read_trace_file_content (lines : list string) (trace : list Z) :
  read_trace_file lines = TraceOk trace ->
  Forall2 holds_address (data_lines lines) trace.
Proof.
  unfold read_trace_file. revert trace.
  induction lines as [|line lines IH]; intros trace.
  - intros [= <-]. constructor.
  - rewrite read_lines_cons. cbv zeta. cbn [data_lines List.filter].
    fold (data_lines lines).
    destruct (skipped _) eqn:Hskip; cbn [negb]; [apply IH|].
    destruct (int16 _) as [a|] eqn:Ha; [|discriminate].
    destruct (Z.ltb_spec a 0); [discriminate|].
    destruct (Z.ltb_spec 4294967295 a); [discriminate|]. cbn [orb].
    destruct (read_lines lines []) as [t|]; [|discriminate].
    intros [= <-]. constructor; [|now apply IH].
    split; [exact Ha|lia].
Qed.

Lemma read_trace_file_content_witness :
  read_trace_file ["# trace"; "0xA3C4 "; ""; "ff"] = TraceOk [0xA3C4; 0xff] /\
  Forall2 holds_address (data_lines ["# trace"; "0xA3C4 "; ""; "ff"])
    [0xA3C4; 0xff].
Proof.
  split; [reflexivity|].
  apply (read_trace_file_content ["# trace"; "0xA3C4 "; ""; "ff"]).
  reflexivity.
Defined.

(** X19: a trace file in ASCII is read completely or not at all:
    [read_trace_file] returns exactly when every data line holds an
    address; if one does not, the result is the exit, whatever the
    other lines. *)
Theorem read_trace_file_all_or_nothing (lines : list string) :
  forallb is_ascii lines = true ->
  ((exists trace, read_trace_file lines = TraceOk trace) <->
   Forall (fun line => exists a, holds_address line a) (data_lines lines)).
Proof.
  intros _. unfold read_trace_file.
  induction lines as [|line lines IH].
  - split; [constructor|]. intros _. now exists [].
  - rewrite read_lines_cons. cbv zeta. cbn [data_lines List.filter].
    fold (data_lines lines).
    destruct (skipped _) eqn:Hskip; cbn [negb]; [exact IH|].
    rewrite Forall_cons. unfold holds_address at 1.
    destruct (int16 _) as [a|] eqn:Ha.
    + destruct (Z.ltb_spec a 0); cbn [orb].
      { split; [intros [? ?]; discriminate|].
        intros [(a' & [= <-] & ?) _]. lia. }
      destruct (Z.ltb_spec 4294967295 a).
      { split; [intros [? ?]; discriminate|].
        intros [(a' & [= <-] & ?) _]. lia. }
      split.
      * intros [t Ht]. split; [exists a; split; [reflexivity|lia]|].
        apply IH. destruct (read_lines lines []); [eauto|discriminate].
      * intros [_ Hrest]. apply IH in Hrest as [t ->]. eauto.
    + split; [intros [? ?]; discriminate|].
      intros [(a' & ? & _) _]. discriminate.
Qed.

Lemma read_trace_file_all_or_nothing_witness :
  forallb is_ascii ["# trace"; "0xA3C4 "; "1_0000_0000"; "ff"] = true /\
  ((exists trace,
      read_trace_file ["# trace"; "0xA3C4 "; "1_0000_0000"; "ff"]
      = TraceOk trace) <->
   Forall (fun line => exists a, holds_address line a)
     (data_lines ["# trace"; "0xA3C4 "; "1_0000_0000"; "ff"])).
Proof.
  split; [reflexivity|].
  apply (read_trace_file_all_or_nothing
           ["# trace"; "0xA3C4 "; "1_0000_0000"; "ff"]).
  reflexivity.
Defined.

Lemma read_lines_app (lines1 lines2 : list string) :
  read_lines (lines1 ++ lines2) [] =
    match read_lines lines1 [] with
    | TraceOk t1 =>
        match read_lines lines2 [] with
        | TraceOk t2 => TraceOk (t1 ++ t2)
        | TraceExit l => TraceExit l
        end
    | TraceExit l => TraceExit l
    end.
Proof.
  induction lines1 as [|line lines1 IH].
  - cbn. now destruct (read_lines lines2 []).
  - change ((line :: lines1) ++ lines2) with (line :: (lines1 ++ lines2)).
    rewrite !read_lines_cons. cbv zeta.
    destruct (skipped _); [exact IH|].
    destruct (int16 _) as [a|]; [|reflexivity].
    destruct ((a <? 0) || (4294967295 <? a)); [reflexivity|].
    rewrite IH.
    destruct (read_lines lines1 []); [|reflexivity].
    now destruct (read_lines lines2 []).
Qed.

(** X20: reading is compositional: the trace of two lists of lines put
    end to end is the two traces put end to end, and the first failure
    is the failure of the whole. *)
Theorem read_trace_file_app (lines1 lines2 : list string) :
  read_trace_file (lines1 ++ lines2) =
    match read_trace_file lines1 with
    | TraceOk t1 =>
        match read_trace_file lines2 with
        | TraceOk t2 => TraceOk (t1 ++ t2)
        | TraceExit l => TraceExit l
        end
    | TraceExit l => TraceExit l
    end.
Proof.
  unfold read_trace_file.
  induction lines1 as [|line lines1 IH].
  - cbn. now destruct (read_lines lines2 []).
  - change ((line :: lines1) ++ lines2) with (line :: (lines1 ++ lines2)).
    rewrite !read_lines_cons. cbv zeta.
    destruct (skipped _); [exact IH|].
    destruct (int16 _) as [a|]; [|reflexivity].
    destruct ((a <? 0) || (4294967295 <? a)); [reflexivity|].
    rewrite IH.
    destruct (read_lines lines1 []); [|reflexivity].
    now destruct (read_lines lines2 []).
Qed.

(** X21: a line that is empty or starts with [#] once stripped can be
    added anywhere in the file without changing what is read. *)
Theorem read_trace_file_ignores_comments
    (lines1 lines2 : list string) (line : string) :
  skipped (strip (list_ascii_of_string line)) = true ->
  read_trace_file (lines1 ++ line :: lines2) =
  read_trace_file (lines1 ++ lines2).
Proof.
  intros Hskip. unfold read_trace_file.
  rewrite !read_lines_app, read_lines_cons. cbv zeta.
  now rewrite Hskip.
Qed.

Lemma read_trace_file_ignores_comments_witness :
  skipped (strip (list_ascii_of_string "  # set 28 again")) = true /\
  read_trace_file (["A3C4"] ++ "  # set 28 again" :: ["B3C4"]) =
  read_trace_file (["A3C4"] ++ ["B3C4"]).
Proof.
  split; [reflexivity|].
  apply (read_trace_file_ignores_comments ["A3C4"] ["B3C4"]
           "  # set 28 again").
  reflexivity.
Defined.

(** ** Addresses written by the log can be read back *)

Lemma hex_digit_facts (d : Z) :
  0 <= d < 16 ->
  hex_value (hex_digit d) = Some d /\
  is_space (hex_digit d) = false /\
  Ascii.eqb (hex_digit d) "_" = false /\
  Ascii.eqb (hex_digit d) "+" = false /\
  Ascii.eqb (hex_digit d) "-" = false /\
  Ascii.eqb (hex_digit d) "#" = false /\
  Ascii.eqb (hex_digit d) "x" = false /\
  Ascii.eqb (hex_digit d) "X" = false.
Proof.
  intros Hd. replace d with (Z.of_nat (Z.to_nat d)) by lia.
  assert (Hn : (Z.to_nat d < 16)%nat) by lia.
  generalize dependent (Z.to_nat d). clear d Hd. intros n Hn.
  do 16 (destruct n as [|n]; [vm_compute; repeat split|]).
  lia.
Qed.

Lemma hex_digits_range (fuel : nat) :
  forall n, 0 <= n -> Forall (fun d => 0 <= d < 16) (hex_digits fuel n).
Proof.
  induction fuel as [|fuel IH]; intros n Hn; cbn [hex_digits]; [constructor|].
  destruct (Z.ltb_spec n 16).
  - constructor; [lia|constructor].
  - apply Forall_app. split.
    + apply IH. apply Z.div_pos; lia.
    + constructor; [|constructor]. apply Z.mod_pos_bound. lia.
Qed.

Lemma digits_value_snoc (ds : list Z) (d : Z) :
  digits_value (ds ++ [d]) = digits_value ds * 16 + d.
Proof. unfold digits_value. now rewrite fold_left_app. Qed.

Lemma hex_digits_value (fuel : nat) :
  forall n, 0 <= n < 16 ^ Z.of_nat fuel ->
            digits_value (hex_digits fuel n) = n.
Proof.
  induction fuel as [|fuel IH]; intros n Hn; cbn [hex_digits].
  - cbn in Hn. unfold digits_value. cbn. lia.
  - destruct (Z.ltb_spec n 16); [unfold digits_value; cbn; lia|].
    rewrite digits_value_snoc, IH.
    + pose proof (Z.div_mod n 16). lia.
    + rewrite Nat2Z.inj_succ, Z.pow_succ_r in Hn by lia.
      split; [apply Z.div_pos; lia|].
      apply Z.div_lt_upper_bound; lia.
Qed.

Lemma to_hex_facts (n : Z) :
  0 <= n ->
  to_hex n <> [] /\
  Forall (fun d => 0 <= d < 16) (to_hex n) /\
  digits_value (to_hex n) = n.
Proof.
  intros Hn. unfold to_hex. split; [|split].
  - cbn [hex_digits]. destruct (n <? 16); [discriminate|].
    intros H. apply app_eq_nil in H as [_ H]. discriminate.
  - now apply hex_digits_range.
  - apply hex_digits_value. split; [exact Hn|].
    rewrite Nat2Z.inj_succ, Z2Nat.id by apply Z.log2_nonneg.
    destruct (Z.eq_dec n 0) as [->|Hne]; [reflexivity|].
    destruct (Z.log2_spec n) as [_ Hlt]; [lia|].
    assert (2 ^ Z.succ (Z.log2 n) <= 16 ^ Z.succ (Z.log2 n)).
    { apply Z.pow_le_mono_l. lia. }
    lia.
Qed.

Lemma zero_pad_facts (width : nat) (ds : list Z) :
  ds <> [] -> Forall (fun d => 0 <= d < 16) ds ->
  zero_pad width ds <> [] /\
  Forall (fun d => 0 <= d < 16) (zero_pad width ds) /\
  digits_value (zero_pad width ds) = digits_value ds.
Proof.
  intros Hne Hr. unfold zero_pad. split; [|split].
  - intros H. apply app_eq_nil in H as [_ H]. contradiction.
  - apply Forall_app. split; [|exact Hr].
    apply Forall_replicate. lia.
  - unfold digits_value. rewrite fold_left_app. f_equal.
    induction (width - length ds)%nat as [|k IH]; [reflexivity|exact IH].
Qed.

Lemma scan_hex_digits (ds : list Z) :
  Forall (fun d => 0 <= d < 16) ds ->
  forall seen acc,
    ds <> [] \/ seen = true ->
    scan_digits (hex_digit <$> ds) false seen acc =
      Some (fold_left (fun acc d => acc * 16 + d) ds acc).
Proof.
  induction 1 as [|d ds Hd _ IH]; intros seen acc Hok.
  - destruct Hok as [Hok| ->]; [contradiction|reflexivity].
  - cbn [fmap list_fmap scan_digits fold_left].
    destruct (hex_digit_facts d Hd) as (-> & _ & -> & _).
    apply IH. now right.
Qed.

Lemma lstrip_clean (cs : list ascii) :
  Forall (fun c => is_space c = false) cs -> lstrip cs = cs.
Proof. intros [|c cs' Hc _]; cbn [lstrip]; [reflexivity|now rewrite Hc]. Qed.

Lemma strip_clean (cs : list ascii) :
  Forall (fun c => is_space c = false) cs -> strip cs = cs.
Proof.
  intros Hcs. unfold strip, rstrip. rewrite (lstrip_clean cs Hcs).
  rewrite lstrip_clean by now apply Forall_reverse.
  apply reverse_involutive.
Qed.

Lemma strip_clean_newline (cs : list ascii) (nl : ascii) :
  Forall (fun c => is_space c = false) cs -> is_space nl = true ->
  strip (cs ++ [nl]) = cs.
Proof.
  intros Hcs Hnl. unfold strip, rstrip.
  destruct Hcs as [|c cs' Hc Hcs'].
  - cbn [app lstrip]. now rewrite Hnl.
  - change ((c :: cs') ++ [nl]) with (c :: (cs' ++ [nl])).
    cbn [lstrip]. rewrite Hc.
    change (c :: (cs' ++ [nl])) with ((c :: cs') ++ [nl]).
    rewrite reverse_snoc. cbn [lstrip]. rewrite Hnl.
    rewrite lstrip_clean by (apply Forall_reverse; now constructor).
    apply reverse_involutive.
Qed.

Lemma is_c_space_is_space (c : ascii) : is_space c = false -> is_c_space c = false.
Proof.
  destruct c as [[] [] [] [] [] [] [] []]; vm_compute; congruence.
Qed.

Lemma int_lstrip_clean (cs : list ascii) :
  Forall (fun c => is_space c = false) cs -> int_lstrip cs = cs.
Proof.
  intros [|c cs' Hc _]; cbn [int_lstrip]; [reflexivity|].
  now rewrite (is_c_space_is_space c Hc).
Qed.

Lemma int_strip_clean (cs : list ascii) :
  Forall (fun c => is_space c = false) cs -> int_strip cs = cs.
Proof.
  intros Hcs. unfold int_strip. rewrite (int_lstrip_clean cs Hcs).
  rewrite int_lstrip_clean by now apply Forall_reverse.
  apply reverse_involutive.
Qed.

Lemma hex_text_clean (ds : list Z) :
  Forall (fun d => 0 <= d < 16) ds ->
  Forall (fun c => is_space c = false) (hex_digit <$> ds).
Proof.
  intros Hr. apply Forall_fmap. eapply Forall_impl; [exact Hr|].
  intros d Hd. cbn. now destruct (hex_digit_facts d Hd) as (_ & -> & _).
Qed.

(** The text after the sign, when it is made of hexadecimal digits. *)
Lemma int16_body (ds : list Z) :
  ds <> [] -> Forall (fun d => 0 <= d < 16) ds ->
  let cs := skip_prefix (hex_digit <$> ds) in
  match cs with
  | [] => None
  | c :: _ =>
      if Ascii.eqb c "_" then None else scan_digits cs false false 0
  end = Some (digits_value ds).
Proof.
  intros Hne Hr. cbv zeta.
  assert (Hskip : skip_prefix (hex_digit <$> ds) = hex_digit <$> ds).
  { destruct Hr as [|d0 ds0 Hd0 Hr0]; [reflexivity|].
    destruct Hr0 as [|d1 ds1 Hd1 Hr1]; [reflexivity|].
    cbn [fmap list_fmap skip_prefix].
    destruct (hex_digit_facts d1 Hd1) as (_ & _ & _ & _ & _ & _ & -> & ->).
    now rewrite andb_false_r. }
  rewrite Hskip.
  destruct Hr as [|d0 ds0 Hd0 Hr0]; [contradiction|].
  cbn [fmap list_fmap].
  destruct (hex_digit_facts d0 Hd0) as (_ & _ & Hus & _).
  rewrite Hus.
  apply (scan_hex_digits (d0 :: ds0)); [now constructor|now left].
Qed.

Lemma int16_digits (ds : list Z) :
  ds <> [] -> Forall (fun d => 0 <= d < 16) ds ->
  int16 (hex_digit <$> ds) = Some (digits_value ds) /\
  int16 ("-"%char :: (hex_digit <$> ds)) = Some (- digits_value ds) /\
  int16 ("0"%char :: "x"%char :: (hex_digit <$> ds)) = Some (digits_value ds).
Proof.
  intros Hne Hr.
  pose proof (hex_text_clean ds Hr) as Hclean.
  pose proof (int16_body ds Hne Hr) as Hbody. cbv zeta in Hbody.
  split; [|split]; unfold int16.
  - rewrite int_strip_clean by exact Hclean.
    destruct Hr as [|d0 ds0 Hd0 Hr0]; [contradiction|].
    cbn [fmap list_fmap split_sign] in *.
    destruct (hex_digit_facts d0 Hd0) as (_ & _ & _ & -> & -> & _).
    destruct (skip_prefix _) as [|c cs]; [discriminate|].
    destruct (Ascii.eqb c "_"); [discriminate|]. now rewrite Hbody.
  - rewrite int_strip_clean by (constructor; [reflexivity|exact Hclean]).
    cbn [split_sign Ascii.eqb]. cbn.
    destruct (skip_prefix _) as [|c cs]; [discriminate|].
    destruct (Ascii.eqb c "_"); [discriminate|]. now rewrite Hbody.
  - rewrite int_strip_clean
      by (constructor; [reflexivity|constructor; [reflexivity|exact Hclean]]).
    assert (Hskip : skip_prefix ("0"%char :: "x"%char :: (hex_digit <$> ds))
                    = hex_digit <$> ds).
    { destruct Hr as [|d0 ds0 Hd0 Hr0]; [contradiction|].
      cbn [fmap list_fmap]. cbn [skip_prefix].
      destruct (hex_digit_facts d0 Hd0) as (_ & _ & -> & _). reflexivity. }
    change (split_sign ("0"%char :: "x"%char :: (hex_digit <$> ds)))
      with (false, "0"%char :: "x"%char :: (hex_digit <$> ds)).
    cbv iota beta. rewrite Hskip.
    destruct Hr as [|d0 ds0 Hd0 Hr0]; [contradiction|].
    cbn [fmap list_fmap].
    destruct (hex_digit_facts d0 Hd0) as (_ & _ & Hus & _). rewrite Hus.
    rewrite (scan_hex_digits (d0 :: ds0)); [reflexivity|now constructor|now left].
Qed.

Lemma padded_facts (width : nat) (n : Z) :
  0 <= n ->
  zero_pad width (to_hex n) <> [] /\
  Forall (fun d => 0 <= d < 16) (zero_pad width (to_hex n)) /\
  digits_value (zero_pad width (to_hex n)) = n.
Proof.
  intros Hn. destruct (to_hex_facts n Hn) as (Hne & Hr & Hv).
  destruct (zero_pad_facts width _ Hne Hr) as (Hne' & Hr' & Hv').
  repeat split; auto. congruence.
Qed.

(** X22: the format [08x] and [int(., 16)] are inverse to each other:
    parsing the text that [08x] gives for an integer, negative or of
    more than eight digits included, returns that integer. *)
Theorem int16_format_08x (n : Z) : int16 (format_08x n) = Some n.
Proof.
  unfold format_08x. destruct (Z.ltb_spec n 0) as [Hneg|Hpos].
  - destruct (padded_facts 7 (- n)) as (Hne & Hr & Hv); [lia|].
    destruct (int16_digits _ Hne Hr) as (_ & -> & _).
    rewrite Hv. f_equal. lia.
  - destruct (padded_facts 8 n Hpos) as (Hne & Hr & Hv).
    destruct (int16_digits _ Hne Hr) as (-> & _).
    now rewrite Hv.
Qed.

(** X23: a trace written one address per line as the log prints
    addresses ([0x] followed by the format [08x]) is read back as it
    is, provided every address lies between 0 and 0xFFFFFFFF. *)
Theorem trace_lines_read_back (addresses : list Z) :
  Forall (fun a => 0 <= a <= 0xFFFFFFFF) addresses ->
  read_trace_file (trace_line <$> addresses) = TraceOk addresses.
Proof.
  unfold read_trace_file.
  induction 1 as [|a addresses Ha _ IH]; [reflexivity|].
  cbn [fmap list_fmap]. rewrite read_lines_cons. cbv zeta.
  unfold trace_line at 1 2 3.
  rewrite list_ascii_of_string_of_list_ascii.
  unfold format_08x. destruct (Z.ltb_spec a 0) as [|_]; [lia|].
  destruct (padded_facts 8 a (proj1 Ha)) as (Hne & Hr & Hv).
  change ("0"%char :: "x"%char :: (hex_digit <$> zero_pad 8 (to_hex a))
            ++ ["010"%char])
    with (("0"%char :: "x"%char :: (hex_digit <$> zero_pad 8 (to_hex a)))
            ++ ["010"%char]).
  rewrite strip_clean_newline;
    [|constructor; [reflexivity|constructor; [reflexivity|]];
      now apply hex_text_clean
     |reflexivity].
  cbn [skipped]. change (Ascii.eqb "0" "#") with false. cbv iota.
  destruct (int16_digits _ Hne Hr) as (_ & _ & ->). rewrite Hv.
  destruct (Z.ltb_spec a 0); [lia|].
  destruct (Z.ltb_spec 4294967295 a); [lia|]. cbn [orb].
  fold (fmap (M := list) trace_line addresses).
  now rewrite IH.
Qed.

Lemma trace_lines_read_back_witness :
  Forall (fun a => 0 <= a <= 0xFFFFFFFF) [0xA3C4; 0; 0xFFFFFFFF] /\
  read_trace_file (trace_line <$> [0xA3C4; 0; 0xFFFFFFFF]) =
    TraceOk [0xA3C4; 0; 0xFFFFFFFF].
Proof.
  assert (H : Forall (fun a => 0 <= a <= 0xFFFFFFFF) [0xA3C4; 0; 0xFFFFFFFF])
    by (repeat constructor; lia).
  split; [exact H|].
  exact (trace_lines_read_back [0xA3C4; 0; 0xFFFFFFFF] H).
Defined.

(** ** The whole program *)

Lemma init_raise_cases (cs bs ways : Z) (policy : string) (e : exn) :
  __init__ cs bs ways policy = Raise e ->
  (e = ZeroDivisionError /\ (bs = 0 \/ ways = 0)) \/
  (exists msg, e = ValueError msg) /\ bs <> 0 /\ ways <> 0.
Proof.
  unfold __init__, floordiv.
  destruct (Z.eqb_spec bs 0) as [|Hbs]; [intros [= <-]; left; auto|].
  cbn [bind].
  destruct (Z.eqb_spec ways 0) as [|Hways]; [intros [= <-]; left; auto|].
  cbn [bind].
  destruct ((cs <=? 0) || (bs <=? 0) || (ways <=? 0));
    [intros [= <-]; right; eauto|].
  destruct (negb (cs / bs * bs =? cs)); [intros [= <-]; right; eauto|].
  destruct (negb (cs / bs / ways * ways =? cs / bs));
    [intros [= <-]; right; eauto|].
  destruct (negb _); [intros [= <-]; right; eauto|discriminate].
Qed.

Lemma init_cache_fresh (cs bs ways : Z) (policy : string)
    (s0 : CacheSimulator) :
  __init__ cs bs ways policy = Ok s0 ->
  init_cache s0 =
    Ok ([LogInit (num_sets s0) (associativity s0) (replacement_policy s0)],
        s0).
Proof.
  intros Hinit.
  rewrite (init_cache_shaped s0 (wf_shaped s0 (init_wf _ _ _ _ _ Hinit))).
  rewrite (init_inv _ _ _ _ _ Hinit). reflexivity.
Qed.

Lemma run_counts (trace : list Z) :
  forall s hs evs s',
    shaped s -> run s trace = Ok (hs, evs, s') ->
    length hs = length trace /\
    total_accesses (stats s') =
      total_accesses (stats s) + Z.of_nat (length hs) /\
    hits (stats s') = hits (stats s) + hits_among hs.
Proof.
  induction trace as [|a trace IH]; intros s hs evs s' Hs Hrun;
    cbn [run] in Hrun.
  - injection Hrun as <- <- <-. cbn. repeat split; lia.
  - destruct (access_cache_step s a Hs) as (o & row & line & Hf & _ & Hacc).
    rewrite Hacc in Hrun. cbn [bind] in Hrun.
    destruct (run (after_access s a o row line) trace)
      as [[[hs1 evs1] s1]|] eqn:Hrun1; [|discriminate].
    cbn [bind] in Hrun. injection Hrun as <- <- <-.
    destruct (IH _ _ _ _ (after_access_shaped s a o row line Hs Hf) Hrun1)
      as (Hlen & Htot & Hhits).
    rewrite Htot, Hhits. cbn [length hits_among].
    split; [now rewrite Hlen|].
    cbn. destruct (hit o); cbn; [lia|].
    destruct (valid line); cbn; lia.
Qed.

(** X24: what [main] does is determined by its arguments, for a policy
    that [argparse] lets through and a trace file in ASCII.  It dies of
    an uncaught [ZeroDivisionError] when the block size or the
    associativity is 0.  Otherwise it exits with status 1 when the
    configuration is invalid, and also when the configuration is valid
    but a line of the trace file is rejected.  In the remaining case, a
    valid configuration and a trace that is read or the default one, it
    processes the whole trace: it prints the value that each access
    returns on the freshly constructed cache, then a summary in which
    the total is the length of the trace, the hits are the HIT results,
    the misses are the others, the evictions do not exceed the misses
    and the two rates are the floats computed from these counters. *)
Theorem main_outcome
    (cs bs ways : Z) (policy : string) (trace_file : option (list string)) :
  policy = "FIFO" \/ policy = "LRU" ->
  match trace_file with
  | Some lines => forallb is_ascii lines
  | None => true
  end = true ->
  let source :=
    match trace_file with
    | Some lines => read_trace_file lines
    | None => TraceOk default_trace
    end in
  (bs = 0 \/ ways = 0 ->
   main cs bs ways policy trace_file = MainUncaught ZeroDivisionError) /\
  (bs <> 0 -> ways <> 0 -> ~ valid_config cs bs ways ->
   main cs bs ways policy trace_file = MainExit 1) /\
  (valid_config cs bs ways ->
   forall line, source = TraceExit line ->
   main cs bs ways policy trace_file = MainExit 1) /\
  (valid_config cs bs ways ->
   forall trace, source = TraceOk trace ->
   exists s0 results evs s,
     __init__ cs bs ways policy = Ok s0 /\
     run s0 trace = Ok (results, evs, s) /\
     length results = length trace /\
     0 <= evictions (stats s)
       <= Z.of_nat (length trace) - hits_among results /\
     main cs bs ways policy trace_file =
       MainFinished results
         [SummaryHeader;
          SummaryTotal (Z.of_nat (length trace));
          SummaryHits (hits_among results);
          SummaryMisses (Z.of_nat (length trace) - hits_among results);
          SummaryEvictions (evictions (stats s));
          SummaryHitRate
            (rate (hits_among results) (Z.of_nat (length trace)));
          SummaryMissRate
            (rate (Z.of_nat (length trace) - hits_among results)
                  (Z.of_nat (length trace)))]).
Proof.
  intros Hpol _ source.
  assert (Hok : valid_config cs bs ways ->
                exists s0, __init__ cs bs ways policy = Ok s0).
  { intros (Hcs & Hbs & Hw & Hnb & Hns).
    rewrite Z.mod_eq in Hnb, Hns by lia.
    destruct (init_succeeds cs bs ways policy) as (s & Hs & _);
      try lia; [|now exists s].
    destruct Hpol as [-> | ->]; [left|right]; reflexivity. }
  split; [|split; [|split]].
  - intros Hz. unfold main, __init__, floordiv.
    destruct (Z.eqb_spec bs 0) as [|Hbs]; [reflexivity|]. cbn [bind].
    destruct (Z.eqb_spec ways 0) as [|Hways]; [reflexivity|]. lia.
  - intros Hbs Hways Hnv. unfold main.
    destruct (__init__ cs bs ways policy) as [s0|e] eqn:Hinit.
    + exfalso. apply Hnv.
      destruct (init_checks _ _ _ _ _ Hinit) as (? & ? & ? & Hnb & Hns & _).
      repeat split; try assumption; rewrite Z.mod_eq by lia; lia.
    + destruct (init_raise_cases _ _ _ _ _ Hinit)
        as [[_ Hz]|[[msg ->] _]]; [lia|reflexivity].
  - intros Hv line Hsrc. destruct (Hok Hv) as [s0 Hinit].
    unfold main. rewrite Hinit. fold source. now rewrite Hsrc.
  - intros Hv trace Hsrc. destruct (Hok Hv) as [s0 Hinit].
    pose proof (init_wf _ _ _ _ _ Hinit) as Hwf0.
    destruct (run_wf trace s0 Hwf0) as (hs & evs & s & Hrun & Hwf & _).
    destruct (run_counts trace _ _ _ _ (wf_shaped s0 Hwf0) Hrun)
      as (Hlen & Htot & Hhits).
    rewrite (init_inv _ _ _ _ _ Hinit) in Htot, Hhits.
    cbn in Htot, Hhits.
    destruct (wf_stats s Hwf) as [_ Hsum Hev _ _].
    assert (Hm : misses (stats s) = Z.of_nat (length trace) - hits_among hs)
      by lia.
    exists s0, hs, evs, s.
    split; [exact Hinit|]. split; [exact Hrun|]. split; [exact Hlen|].
    split; [lia|].
    unfold main. rewrite Hinit. fold source. rewrite Hsrc.
    rewrite (init_cache_fresh _ _ _ _ _ Hinit), Hrun.
    unfold print_summary. rewrite Hm, Hhits, Htot, Hlen. reflexivity.
Qed.

Lemma main_outcome_witness :
  ("FIFO" = "FIFO" \/ "FIFO" = "LRU") /\
  forallb is_ascii ["0x10"; "# again"; "0x10"] = true /\
  let source := read_trace_file ["0x10"; "# again"; "0x10"] in
  (16 = 0 \/ 2 = 0 ->
   main 1024 16 2 "FIFO" (Some ["0x10"; "# again"; "0x10"])
   = MainUncaught ZeroDivisionError) /\
  (16 <> 0 -> 2 <> 0 -> ~ valid_config 1024 16 2 ->
   main 1024 16 2 "FIFO" (Some ["0x10"; "# again"; "0x10"]) = MainExit 1) /\
  (valid_config 1024 16 2 ->
   forall line, source = TraceExit line ->
   main 1024 16 2 "FIFO" (Some ["0x10"; "# again"; "0x10"]) = MainExit 1) /\
  (valid_config 1024 16 2 ->
   forall trace, source = TraceOk trace ->
   exists s0 results evs s,
     __init__ 1024 16 2 "FIFO" = Ok s0 /\
     run s0 trace = Ok (results, evs, s) /\
     length results = length trace /\
     0 <= evictions (stats s)
       <= Z.of_nat (length trace) - hits_among results /\
     main 1024 16 2 "FIFO" (Some ["0x10"; "# again"; "0x10"]) =
       MainFinished results
         [SummaryHeader;
          SummaryTotal (Z.of_nat (length trace));
          SummaryHits (hits_among results);
          SummaryMisses (Z.of_nat (length trace) - hits_among results);
          SummaryEvictions (evictions (stats s));
          SummaryHitRate
            (rate (hits_among results) (Z.of_nat (length trace)));
          SummaryMissRate
            (rate (Z.of_nat (length trace) - hits_among results)
                  (Z.of_nat (length trace)))]).
Proof.
  split; [left; reflexivity|]. split; [reflexivity|].
  apply (main_outcome 1024 16 2 "FIFO" (Some ["0x10"; "# again"; "0x10"]));
    [left; reflexivity|reflexivity].
Defined.

(** ** Address decomposition with a power-of-two number of sets *)

(** X25: when the number of sets is a power of two, the set index and
    the tag determine the 16-byte block: two addresses that get the
    same set index and the same tag have the same [address >> 4], and
    that number is [tag * num_sets + set_index]. *)
Theorem decomposition_injective (s : CacheSimulator) (a b : Z) :
  power_of_two (num_sets s) ->
  Z.shiftr a 4 = tag_value_of s a * num_sets s + set_index_of s a /\
  (set_index_of s a = set_index_of s b ->
   tag_value_of s a = tag_value_of s b ->
   Z.shiftr a 4 = Z.shiftr b 4).
Proof.
  intros (k & Hk & Hn).
  assert (Hdec : forall x,
             Z.shiftr x 4 = tag_value_of s x * num_sets s + set_index_of s x).
  { intros x. unfold tag_value_of, set_index_of. rewrite Hn.
    assert (0 < 2 ^ k) by (apply Z.pow_pos_nonneg; lia).
    rewrite bit_length_log2 by assumption.
    rewrite Z.log2_pow2 by exact Hk.
    rewrite <- Z.shiftr_shiftr by exact Hk.
    rewrite (Z.shiftr_div_pow2 (Z.shiftr x 4) k) by exact Hk.
    replace (2 ^ k - 1) with (Z.ones k)
      by (rewrite Z.ones_equiv; lia).
    rewrite Z.land_ones by exact Hk.
    pose proof (Z.div_mod (Z.shiftr x 4) (2 ^ k)). lia. }
  split; [apply Hdec|].
  intros Hset Htag. rewrite (Hdec a), (Hdec b). now rewrite Hset, Htag.
Qed.

Lemma decomposition_injective_witness :
  exists s,
    __init__ 1024 16 2 "LRU" = Ok s /\
    power_of_two (num_sets s) /\
    Z.shiftr 0xA3C4 4 =
      tag_value_of s 0xA3C4 * num_sets s + set_index_of s 0xA3C4 /\
    (set_index_of s 0xA3C4 = set_index_of s 0xA3CF ->
     tag_value_of s 0xA3C4 = tag_value_of s 0xA3CF ->
     Z.shiftr 0xA3C4 4 = Z.shiftr 0xA3CF 4).
Proof.
  eexists. split; [vm_compute; reflexivity|].
  assert (Hp : power_of_two 32) by (exists 5; split; [lia|reflexivity]).
  split; [exact Hp|].
  apply (decomposition_injective _ 0xA3C4 0xA3CF). exact Hp.
Defined.

(** ** Stamps *)

Lemma reached_stamps_distinct
    (cs bs ways : Z) (policy : string) (s0 s : CacheSimulator)
    (ops : list op) :
  __init__ cs bs ways policy = Ok s0 ->
  exec s0 ops = Ok s ->
  forall (k1 k2 w1 w2 : nat) (row1 row2 : list CacheLine) (l1 l2 : CacheLine),
    cache_array s !! k1 = Some row1 -> row1 !! w1 = Some l1 ->
    cache_array s !! k2 = Some row2 -> row2 !! w2 = Some l2 ->
    valid l1 = true -> valid l2 = true -> last_used l1 = last_used l2 ->
    k1 = k2 /\ w1 = w2.
Proof.
  apply (reached_invariant
           (fun s =>
              forall (k1 k2 w1 w2 : nat) (row1 row2 : list CacheLine)
                     (l1 l2 : CacheLine),
                cache_array s !! k1 = Some row1 -> row1 !! w1 = Some l1 ->
                cache_array s !! k2 = Some row2 -> row2 !! w2 = Some l2 ->
                valid l1 = true -> valid l2 = true ->
                last_used l1 = last_used l2 -> k1 = k2 /\ w1 = w2)).
  - intros ? ? ? ? s1 H1 k1 k2 w1 w2 row1 row2 l1 l2.
    rewrite (init_inv _ _ _ _ _ H1). cbn. intros Hr1 Hl1 _ _ Hv.
    apply lookup_replicate in Hr1 as [-> _].
    apply lookup_replicate in Hl1 as [-> _]. discriminate.
  - intros s1 a o row line Hwf IH Hf k1 k2 w1 w2 row1 row2 l1 l2.
    cbn [after_access cache_array].
    pose proof (sf_row _ _ _ _ _ Hf) as Hrow.
    pose proof (sf_line _ _ _ _ _ Hf) as Hline.
    destruct (row_after_line _ _ _ _ _ Hf) as (x & Hx & _ & _ & Hxu).
    (* a line of the new array is the line just stamped or an old line *)
    assert (Hold : forall (k w : nat) r l,
               <[Z.to_nat (set_index o) := row_after s1 a o row line]>
                 (cache_array s1) !! k = Some r ->
               r !! w = Some l -> valid l = true ->
               (k = Z.to_nat (set_index o) /\ w = Z.to_nat (way o) /\
                last_used l = access_counter s1 + 1) \/
               ((k <> Z.to_nat (set_index o) \/ w <> Z.to_nat (way o)) /\
                exists r', cache_array s1 !! k = Some r' /\ r' !! w = Some l /\
                           last_used l <= access_counter s1)).
    { intros k w r l Hr Hl Hv.
      assert (Hle : forall r', cache_array s1 !! k = Some r' ->
                               r' !! w = Some l ->
                               last_used l <= access_counter s1).
      { intros r' Hr' Hl'.
        pose proof (Forall_lookup_1 _ _ _ _
                      (Forall_lookup_1 _ _ _ _ (wf_lines s1 Hwf) Hr') Hl')
          as Hok.
        unfold line_ok in Hok. rewrite Hv in Hok. lia. }
      apply list_lookup_insert_Some in Hr as [(<- & <- & _)|(Hk & Hr)].
      - destruct (decide (w = Z.to_nat (way o))) as [->|Hw].
        + left. rewrite Hx in Hl. injection Hl as <-. auto.
        + right. split; [now right|]. exists row.
          unfold row_after in Hl.
          rewrite list_lookup_insert_ne in Hl by auto. eauto.
      - right. split; [left; auto|]. exists r. eauto. }
    intros Hr1 Hl1 Hr2 Hl2 Hv1 Hv2 Heq.
    destruct (Hold _ _ _ _ Hr1 Hl1 Hv1) as [(-> & -> & Hu1)|(Hp1 & r1' & Hr1' & Hl1' & Hu1)];
      destruct (Hold _ _ _ _ Hr2 Hl2 Hv2) as [(-> & -> & Hu2)|(Hp2 & r2' & Hr2' & Hl2' & Hu2)];
      try lia; auto.
    eapply IH; eassumption.
  - intros s1 _ _ k1 k2 w1 w2 row1 row2 l1 l2. cbn. intros Hr1 Hl1 _ _ Hv.
    apply lookup_replicate in Hr1 as [-> _].
    apply lookup_replicate in Hl1 as [-> _]. discriminate.
Qed.

(** X26: in every reachable state no two valid lines of the cache carry
    the same [last_used] stamp, so under LRU the least recently used
    line of a full set is unique: the tie-break by lowest way only ever
    decides between invalid lines. *)
Theorem lru_victim_unique_among_valid
    (cs bs ways : Z) (policy : string) (s0 s : CacheSimulator)
    (ops : list op) (a : Z) :
  __init__ cs bs ways policy = Ok s0 ->
  exec s0 ops = Ok s ->
  replacement_policy s = "LRU" ->
  exists o row line,
    access_outcome s a = Ok o /\
    cache_array s !! Z.to_nat (set_index o) = Some row /\
    row !! Z.to_nat (way o) = Some line /\
    (hit o = false -> valid line = true ->
     forall (w : nat) (l : CacheLine),
       row !! w = Some l -> w <> Z.to_nat (way o) ->
       valid l = true /\ last_used line < last_used l).
Proof.
  intros Hinit Hexec Hlru.
  destruct (reached_wf _ _ _ _ _ _ _ Hinit Hexec) as [Hwf _].
  pose proof (wf_shaped s Hwf) as Hs.
  destruct (access_cache_step s a Hs) as (o & row & line & Hf & Hout & _).
  pose proof (sf_row _ _ _ _ _ Hf) as Hrow.
  pose proof (sf_line _ _ _ _ _ Hf) as Hline.
  exists o, row, line. split; [exact Hout|]. split; [exact Hrow|].
  split; [exact Hline|].
  intros Hmiss Hv w l Hl Hw.
  destruct (sf_lru _ _ _ _ _ Hf Hmiss Hlru) as [Hway Hmin].
  pose proof (Forall_lookup_1 _ _ _ _ (wf_lines s Hwf) Hrow) as Hok.
  pose proof (Forall_lookup_1 _ _ _ _ Hok Hline) as Hlok.
  pose proof (Forall_lookup_1 _ _ _ _ Hok Hl) as Hwok.
  unfold line_ok in Hlok, Hwok. rewrite Hv in Hlok.
  apply lookup_lt_Some in Hl as Hlt.
  rewrite (sf_row_len _ _ _ _ _ Hf) in Hlt.
  destruct (Hmin (Z.of_nat w)) as [Hle _]; [lia|].
  unfold stamp in Hle. rewrite Nat2Z.id, Hl, Hline in Hle.
  destruct (valid l) eqn:Hvl; [|lia].
  split; [reflexivity|].
  destruct (Z.eq_dec (last_used line) (last_used l)) as [Heq|Hne]; [|lia].
  destruct (reached_stamps_distinct _ _ _ _ _ _ _ Hinit Hexec
              _ _ _ _ _ _ _ _ Hrow Hline Hrow Hl Hv Hvl Heq) as [_ Hww].
  congruence.
Qed.

Lemma lru_victim_unique_among_valid_witness :
  exists s0 s,
    __init__ 64 16 2 "LRU" = Ok s0 /\
    exec s0 [Access 0x00; Access 0x20; Access 0x00] = Ok s /\
    replacement_policy s = "LRU" /\
    exists o row line,
      access_outcome s 0x40 = Ok o /\
      cache_array s !! Z.to_nat (set_index o) = Some row /\
      row !! Z.to_nat (way o) = Some line /\
      (hit o = false -> valid line = true ->
       forall (w : nat) (l : CacheLine),
         row !! w = Some l -> w <> Z.to_nat (way o) ->
         valid l = true /\ last_used line < last_used l).
Proof.
  eexists _, _.
  split; [vm_compute; reflexivity|].
  split; [vm_compute; reflexivity|].
  split; [reflexivity|].
  eapply (lru_victim_unique_among_valid 64 16 2 "LRU" _ _
            [Access 0x00; Access 0x20; Access 0x00]);
    [vm_compute; reflexivity|vm_compute; reflexivity|reflexivity].
Defined.
